(** * Beat Drift Monitor: the tempo-tracking core of [core/beat_tracker.js]

    A shallow embedding of [createBeatTracker] and of the functions it
    closes over ([emitUpdate], [findDominantPeriod], [reset],
    [enterWaiting], the silence-watch callback, [addOnset], [setTarget]),
    followed by the properties of the tracker that the specification
    states.

    Modelling conventions.
    - A JavaScript number is an exact rational ([Q]).  IEEE-754 rounding,
      overflow, [NaN] and the infinities are not modelled; timestamps and
      tempi are finite.  Division is [Qdiv], which is total and yields [0]
      on a zero divisor where JavaScript yields a non-finite value.  The
      divisors of the tracker that can vanish are [nearestBeat] (the
      quotient is then only used under a conjunction with
      [nearestBeat > 0], which is false in both readings) and the [bpm]
      handed to [setTarget] (statements about [setTarget] exclude
      [bpm == 0]).  Two places take the doubles of the code into
      account: the estimator's comparison with its tolerance, which
      the statement about the reference algorithm keeps clear of
      ([toleranceClear]), and the onsets of [generateSuddenChange],
      which are [NaN] after an empty first section.
    - The closure variables of [createBeatTracker] are the fields of the
      record [Tracker]; every function of the closure is a function from
      [Tracker] to the new [Tracker] and the list of calls it made to the
      two sinks [onUpdate] and [traceOnset], in order.
    - Equality of numbers is [Qeq] ([==]) unless two sides are the same
      term, in which case Leibniz equality is used. *)

From Stdlib Require Import QArith Qround Qabs Qminmax Lqa ZArith List Bool Lia.
From Stdlib Require Import Sorting.Sorted Sorting.Permutation.
Import ListNotations.

Open Scope Q_scope.

(* ====================================================================== *)
(** ** JavaScript numeric primitives                                       *)
(* ====================================================================== *)

Module Js.

(** [a < b] as a test. *)
Definition ltb (a b : Q) : bool := negb (Qle_bool b a).

(** [a <= b] as a test. *)
Definition leb (a b : Q) : bool := Qle_bool a b.

(** [a === b] on numbers. *)
Definition eqb (a b : Q) : bool := Qeq_bool a b.

(** [Math.round]: the nearest integer, halves rounded up. *)
Definition round (x : Q) : Z := Qfloor (x + 0.5).

(** [Math.ceil]. *)
Definition ceil (x : Q) : Z := Qceiling x.

(** [Math.abs], [Math.min], [Math.max]. *)
Definition abs (x : Q) : Q := Qabs x.
Definition min (a b : Q) : Q := Qmin a b.
Definition max (a b : Q) : Q := Qmax a b.

(** [Math.round(x * k) / k], the idiom for rounding to a number of
    decimals. *)
Definition round_to (k : Q) (x : Q) : Q := inject_Z (round (x * k)) / k.

(** Truthiness of a value that is either a number or [null]. *)
Definition truthy (v : option Q) : bool :=
  match v with
  | Some q => negb (eqb q 0)
  | None => false
  end.

(** The number a value stands for in arithmetic ([null] is [0]). *)
Definition num (v : option Q) : Q :=
  match v with
  | Some q => q
  | None => 0
  end.

(** [xs.shift()] on an array used as a queue. *)
Definition shift {A : Type} (xs : list A) : list A := tl xs.

(** Insertion of [a] in an ascending list, before the elements it does
    not exceed. *)
Fixpoint insert_asc (a : Q) (xs : list Q) : list Q :=
  match xs with
  | [] => [a]
  | b :: xs' => if Qle_bool a b then a :: b :: xs' else b :: insert_asc a xs'
  end.

(** [[...xs].sort((a, b) => a - b)]: a stable ascending sort. *)
Fixpoint sort_asc (xs : list Q) : list Q :=
  match xs with
  | [] => []
  | a :: xs' => insert_asc a (sort_asc xs')
  end.

End Js.

(* ====================================================================== *)
(** ** Constants and state                                                 *)
(* ====================================================================== *)

Record Constants : Type := mkConstants {
  CAL_BEATS : nat;           (* Onsets required for calibration *)
  ADAPT_FAST : Q;            (* Period adaptation rate *)
  ADAPT_SLOW : Q;            (* Target period adaptation rate *)
  GRID_TOLERANCE : Q;        (* Fraction of period that counts as on-grid *)
  SILENCE_TIMEOUT_MS : Q;    (* Gap before WAITING state *)
  PERIOD_HISTORY : nat;      (* Recent periods to store *)
  MIN_PERIOD_MS : Q;         (* ~300 BPM *)
  MAX_PERIOD_MS : Q          (* ~40 BPM *)
}.

Definition CONSTANTS : Constants :=
  {| CAL_BEATS := 8;
     ADAPT_FAST := 0.08;
     ADAPT_SLOW := 0.005;
     GRID_TOLERANCE := 0.35;
     SILENCE_TIMEOUT_MS := 4000;
     PERIOD_HISTORY := 12;
     MIN_PERIOD_MS := 200;
     MAX_PERIOD_MS := 1500 |}.

Inductive State : Type := IDLE | CALIBRATING | TRACKING | WAITING.

Definition State_eqb (a b : State) : bool :=
  match a, b with
  | IDLE, IDLE | CALIBRATING, CALIBRATING
  | TRACKING, TRACKING | WAITING, WAITING => true
  | _, _ => false
  end.

(** The mutable variables of the closure.  [silenceCheckInterval] is
    [true] while an interval timer is installed. *)
Record Tracker : Type := mkTracker {
  period : Q;
  phase : Q;
  targetPeriod : Q;
  confidence : Q;
  calOnsets : list Q;
  state : State;
  onsetCount : Z;
  gridHits : Z;
  gridMisses : Z;
  recentPeriods : list Q;
  lastOnsetTime : Q;
  silenceCheckInterval : bool
}.

(** The variables as [createBeatTracker] initialises them. *)
Definition createBeatTracker : Tracker :=
  {| period := 0; phase := 0; targetPeriod := 0; confidence := 0;
     calOnsets := []; state := IDLE;
     onsetCount := 0; gridHits := 0; gridMisses := 0;
     recentPeriods := []; lastOnsetTime := 0;
     silenceCheckInterval := false |}.

(** The object handed to [onUpdate]. *)
Record Update : Type := mkUpdate {
  u_state : State;
  u_currentBpm : option Q;
  u_targetBpm : option Q;
  u_drift : Q;
  u_confidence : Z;
  u_beatCount : nat;
  u_calibrationNeeded : nat;
  u_gridHits : Z;
  u_gridMisses : Z;
  u_period : Q;
  u_targetPeriod : Q
}.

Inductive GridEvent : Type := off_grid | on_grid | double_tempo_correction.

(** The objects handed to [traceOnset], one constructor per call site.
    The record of a tracked onset keeps the fields that are copies or
    two-decimal roundings of closure variables; its derived display
    fields ([offset], [impliedPeriod], [currentBpm], [targetBpm],
    [drift]) are not modelled. *)
Inductive TraceRecord : Type :=
| resume_from_waiting
    (timestamp : Q) (st : State)
    (periodBefore periodAfter targetPeriodBefore targetPeriodAfter : Q)
    (conf : Q) (count : Z)
| calibrating
    (timestamp : Q) (st : State) (beatCount calibrationNeeded : nat)
    (count : Z)
| calibration_complete
    (timestamp : Q) (st : State) (intervals : list Q) (basePeriod : Q)
    (periodAfter targetPeriodAfter currentBpm targetBpm drift conf : Q)
    (count : Z)
| tracked
    (timestamp : Q) (st : State) (event : GridEvent) (onGrid : bool)
    (nearestBeat : Z)
    (periodBefore periodAfter targetPeriodBefore targetPeriodAfter : Q)
    (conf : Z) (hits misses count : Z).

(** A call to one of the two sinks. *)
Inductive Event : Type :=
| EvTrace (r : TraceRecord)
| EvUpdate (u : Update).

(* ====================================================================== *)
(** ** The tracker                                                         *)
(* ====================================================================== *)

Section Tracker.

Variable C : Constants.

(** The snapshot [emitUpdate] builds and passes to [onUpdate]. *)
Definition updateOf (s : Tracker) : Update :=
  let currentBpm :=
    if Js.ltb 0 (period s) then Some (60000 / period s) else None in
  let targetBpm :=
    if Js.ltb 0 (targetPeriod s) then Some (60000 / targetPeriod s)
    else None in
  let drift :=
    if Js.truthy currentBpm && Js.truthy targetBpm
    then Js.num currentBpm - Js.num targetBpm
    else 0 in
  {| u_state := state s;
     u_currentBpm :=
       if Js.truthy currentBpm
       then Some (Js.round_to 10 (Js.num currentBpm)) else None;
     u_targetBpm :=
       if Js.truthy targetBpm
       then Some (Js.round_to 10 (Js.num targetBpm)) else None;
     u_drift := Js.round_to 10 drift;
     u_confidence := Js.round (confidence s * 100);
     u_beatCount := length (calOnsets s);
     u_calibrationNeeded := CAL_BEATS C;
     u_gridHits := gridHits s;
     u_gridMisses := gridMisses s;
     u_period := period s;
     u_targetPeriod := targetPeriod s |}.

Definition emitUpdate (s : Tracker) : list Event := [EvUpdate (updateOf s)].

(** The test of the scoring loop of [findDominantPeriod]. *)
Definition fitsMultiple (candidateMedian iv : Q) : bool :=
  let ratio := iv / candidateMedian in
  let nearestInt := Js.round ratio in
  let fractionalError := Js.abs (ratio - inject_Z nearestInt) in
  Js.ltb fractionalError 0.15 && (1 <=? nearestInt)%Z && (nearestInt <=? 4)%Z.

Definition findDominantPeriod (intervals : list Q) : Q :=
  if (length intervals =? 0)%nat then 0
  else
    let sorted := Js.sort_asc intervals in
    let valid :=
      filter (fun i => Js.ltb (MIN_PERIOD_MS C) i && Js.ltb i 2000) sorted in
    if (length valid =? 0)%nat then 0
    else
      let candidates :=
        firstn
          (Z.to_nat
             (Z.max 1 (Js.ceil (inject_Z (Z.of_nat (length valid)) * 0.6))))
          valid in
      let candidateMedian :=
        nth (length candidates / 2)%nat candidates 0 in
      let score :=
        fold_left
          (fun score iv =>
             if fitsMultiple candidateMedian iv then (score + 1)%Z else score)
          valid 0%Z in
      if Js.leb (inject_Z (Z.of_nat (length valid)) * 0.5) (inject_Z score)
      then candidateMedian
      else nth (length valid / 2)%nat valid 0.

(** The loop of [addOnset] that collects [calOnsets[i] - calOnsets[i-1]]. *)
Fixpoint intervalsOf (onsets : list Q) : list Q :=
  match onsets with
  | a :: (b :: _) as rest => (b - a) :: intervalsOf rest
  | _ => []
  end.

(** *** Public API *)

Definition reset (s : Tracker) : Tracker * list Event :=
  let s' :=
    {| period := 0; phase := 0; targetPeriod := 0; confidence := 0;
       calOnsets := []; state := CALIBRATING;
       onsetCount := 0; gridHits := 0; gridMisses := 0;
       recentPeriods := [];
       lastOnsetTime := lastOnsetTime s;
       silenceCheckInterval := silenceCheckInterval s |} in
  (s', emitUpdate s').

Definition enterWaiting (s : Tracker) : Tracker * list Event :=
  let s' :=
    {| period := period s; phase := phase s;
       targetPeriod := targetPeriod s; confidence := 0;
       calOnsets := calOnsets s; state := WAITING;
       onsetCount := onsetCount s; gridHits := gridHits s;
       gridMisses := gridMisses s;
       recentPeriods := recentPeriods s;
       lastOnsetTime := lastOnsetTime s;
       silenceCheckInterval := silenceCheckInterval s |} in
  (s', emitUpdate s').

Definition setSilenceCheckInterval (b : bool) (s : Tracker) : Tracker :=
  {| period := period s; phase := phase s;
     targetPeriod := targetPeriod s; confidence := confidence s;
     calOnsets := calOnsets s; state := state s;
     onsetCount := onsetCount s; gridHits := gridHits s;
     gridMisses := gridMisses s;
     recentPeriods := recentPeriods s;
     lastOnsetTime := lastOnsetTime s;
     silenceCheckInterval := b |}.

(** [startSilenceWatch] installs the interval timer (replacing one that
    is installed); [stopSilenceWatch] and [destroy] remove it. *)
Definition startSilenceWatch (s : Tracker) : Tracker * list Event :=
  (setSilenceCheckInterval true s, []).

Definition stopSilenceWatch (s : Tracker) : Tracker * list Event :=
  (setSilenceCheckInterval false s, []).

Definition destroy (s : Tracker) : Tracker * list Event :=
  stopSilenceWatch s.

(** One firing of the interval callback, [now] being what [getTime()]
    returns. *)
Definition silenceCheck (now : Q) (s : Tracker) : Tracker * list Event :=
  if State_eqb (state s) IDLE then (s, [])
  else
    let gap := now - lastOnsetTime s in
    if Js.ltb 0 (lastOnsetTime s) && Js.ltb (SILENCE_TIMEOUT_MS C) gap
    then
      if State_eqb (state s) TRACKING || State_eqb (state s) CALIBRATING
      then enterWaiting s
      else (s, [])
    else (s, []).

(** *** Grid position of an onset *)

Definition timeSincePhase (timestamp : Q) (s : Tracker) : Q :=
  timestamp - phase s.

Definition beatFraction (timestamp : Q) (s : Tracker) : Q :=
  timeSincePhase timestamp s / period s.

Definition nearestBeat (timestamp : Q) (s : Tracker) : Z :=
  Js.round (beatFraction timestamp s).

Definition offset (timestamp : Q) (s : Tracker) : Q :=
  beatFraction timestamp s - inject_Z (nearestBeat timestamp s).

Definition absOffset (timestamp : Q) (s : Tracker) : Q :=
  Js.abs (offset timestamp s).

Definition onGrid (timestamp : Q) (s : Tracker) : bool :=
  Js.ltb (absOffset timestamp s) (GRID_TOLERANCE C).

Definition impliedPeriod (timestamp : Q) (s : Tracker) : Q :=
  timeSincePhase timestamp s / inject_Z (nearestBeat timestamp s).

(** The validation of the implied period in the on-grid branch. *)
Definition impliedPeriodValid (timestamp : Q) (s : Tracker) : bool :=
  Js.ltb (MIN_PERIOD_MS C) (impliedPeriod timestamp s)
  && Js.ltb (impliedPeriod timestamp s) (MAX_PERIOD_MS C)
  && (0 <? nearestBeat timestamp s)%Z.

(** The on-grid branch once the implied period is validated. *)
Definition adaptGrid (timestamp : Q) (nearestBeat_ : Z)
    (offset_ impliedPeriod_ : Q) (s : Tracker) : Tracker :=
  (* Fast adaptation: track current tempo *)
  let period' := period s + ADAPT_FAST C * (impliedPeriod_ - period s) in
  (* Slow adaptation: running recalibration of target *)
  let targetPeriod' :=
    targetPeriod s + ADAPT_SLOW C * (period' - targetPeriod s) in
  (* Phase correction: snap grid toward this onset *)
  let phase' :=
    timestamp - (inject_Z nearestBeat_ * period')
    + (offset_ * period' * 0.3) in
  (* Track for smoothing *)
  let pushed := recentPeriods s ++ [impliedPeriod_] in
  let recentPeriods' :=
    if (PERIOD_HISTORY C <? length pushed)%nat then Js.shift pushed
    else pushed in
  {| period := period'; phase := phase';
     targetPeriod := targetPeriod';
     (* Increase confidence *)
     confidence := Js.min 1 (confidence s + 0.05);
     calOnsets := calOnsets s; state := state s;
     onsetCount := onsetCount s; gridHits := gridHits s;
     gridMisses := gridMisses s;
     recentPeriods := recentPeriods';
     lastOnsetTime := lastOnsetTime s;
     silenceCheckInterval := silenceCheckInterval s |}.

(** [gridHits++] and [gridMisses++; confidence = ...]. *)
Definition countHit (s : Tracker) : Tracker :=
  {| period := period s; phase := phase s;
     targetPeriod := targetPeriod s; confidence := confidence s;
     calOnsets := calOnsets s; state := state s;
     onsetCount := onsetCount s; gridHits := (gridHits s + 1)%Z;
     gridMisses := gridMisses s;
     recentPeriods := recentPeriods s;
     lastOnsetTime := lastOnsetTime s;
     silenceCheckInterval := silenceCheckInterval s |}.

Definition countMiss (s : Tracker) : Tracker :=
  {| period := period s; phase := phase s;
     targetPeriod := targetPeriod s;
     confidence := Js.max 0 (confidence s - 0.02);
     calOnsets := calOnsets s; state := state s;
     onsetCount := onsetCount s; gridHits := gridHits s;
     gridMisses := (gridMisses s + 1)%Z;
     recentPeriods := recentPeriods s;
     lastOnsetTime := lastOnsetTime s;
     silenceCheckInterval := silenceCheckInterval s |}.

(** The on-grid / off-grid alternative.  The grid position is the one of
    the state the onset met, [s]. *)
Definition gridHit (timestamp : Q) (s : Tracker) : Tracker :=
  if onGrid timestamp s then
    (* ---- ON-GRID HIT ---- *)
    if impliedPeriodValid timestamp s
    then
      adaptGrid timestamp (nearestBeat timestamp s) (offset timestamp s)
        (impliedPeriod timestamp s) (countHit s)
    else countHit s
  else
    (* ---- OFF-GRID HIT ---- *)
    countMiss s.

(** The outer test of the double-tempo detection: [absOffset] is the one
    of the state the onset met, the counters are those of the state [s1]
    that the on-grid / off-grid alternative left. *)
Definition doubleTempoDetected (absOffset_ : Q) (s1 : Tracker) : bool :=
  Js.ltb 0.35 absOffset_ && Js.ltb absOffset_ 0.65
  && Js.ltb (inject_Z (gridHits s1) * 0.5) (inject_Z (gridMisses s1))
  && Js.ltb 6 (inject_Z (gridMisses s1)).

(** The inner test: the halved period stays above the minimum. *)
Definition halfPeriodValid (s1 : Tracker) : bool :=
  Js.ltb (MIN_PERIOD_MS C) (period s1 / 2).

(** The correction itself. *)
Definition halveGrid (timestamp : Q) (s1 : Tracker) : Tracker :=
  let halfPeriod := period s1 / 2 in
  {| period := halfPeriod; phase := timestamp;
     targetPeriod := halfPeriod;
     confidence := Js.max 0.3 (confidence s1 - 0.2);
     calOnsets := calOnsets s1; state := state s1;
     onsetCount := onsetCount s1; gridHits := 0; gridMisses := 0;
     recentPeriods := map (fun p => p / 2) (recentPeriods s1);
     lastOnsetTime := lastOnsetTime s1;
     silenceCheckInterval := silenceCheckInterval s1 |}.

(** Whether the handling of the onset [timestamp], met in state [s],
    performs the double-tempo correction. *)
Definition doubleTempoFires (timestamp : Q) (s : Tracker) : bool :=
  doubleTempoDetected (absOffset timestamp s) (gridHit timestamp s)
  && halfPeriodValid (gridHit timestamp s).

(** The tracking phase of [addOnset], from the grid position to the end;
    [s] already has the new [lastOnsetTime] and [onsetCount]. *)
Definition trackOnset (timestamp periodBefore targetPeriodBefore : Q)
    (s : Tracker) : Tracker * list Event :=
  let s1 := gridHit timestamp s in
  let event1 := if onGrid timestamp s then on_grid else off_grid in
  let fires := doubleTempoFires timestamp s in
  let s2 := if fires then halveGrid timestamp s1 else s1 in
  let event2 := if fires then double_tempo_correction else event1 in
  (s2,
   [EvTrace
      (tracked timestamp (state s2) event2 (onGrid timestamp s)
         (nearestBeat timestamp s)
         (Js.round_to 100 periodBefore) (Js.round_to 100 (period s2))
         (Js.round_to 100 targetPeriodBefore)
         (Js.round_to 100 (targetPeriod s2))
         (Js.round (confidence s2 * 100))
         (gridHits s2) (gridMisses s2) (onsetCount s2));
    EvUpdate (updateOf s2)]).

(** [lastOnsetTime = timestamp; onsetCount++]. *)
Definition noteOnset (timestamp : Q) (s : Tracker) : Tracker :=
  {| period := period s; phase := phase s;
     targetPeriod := targetPeriod s; confidence := confidence s;
     calOnsets := calOnsets s; state := state s;
     onsetCount := (onsetCount s + 1)%Z; gridHits := gridHits s;
     gridMisses := gridMisses s;
     recentPeriods := recentPeriods s;
     lastOnsetTime := timestamp;
     silenceCheckInterval := silenceCheckInterval s |}.

(** [calOnsets = [timestamp]; state = State.CALIBRATING]. *)
Definition resumeCalibration (timestamp : Q) (s : Tracker) : Tracker :=
  {| period := period s; phase := phase s;
     targetPeriod := targetPeriod s; confidence := confidence s;
     calOnsets := [timestamp]; state := CALIBRATING;
     onsetCount := onsetCount s; gridHits := gridHits s;
     gridMisses := gridMisses s;
     recentPeriods := recentPeriods s;
     lastOnsetTime := lastOnsetTime s;
     silenceCheckInterval := silenceCheckInterval s |}.

(** [calOnsets.push(timestamp)]. *)
Definition pushCalOnset (timestamp : Q) (s : Tracker) : Tracker :=
  {| period := period s; phase := phase s;
     targetPeriod := targetPeriod s; confidence := confidence s;
     calOnsets := calOnsets s ++ [timestamp]; state := state s;
     onsetCount := onsetCount s; gridHits := gridHits s;
     gridMisses := gridMisses s;
     recentPeriods := recentPeriods s;
     lastOnsetTime := lastOnsetTime s;
     silenceCheckInterval := silenceCheckInterval s |}.

(** The assignments made when the estimator returns a positive period. *)
Definition completeCalibration (timestamp basePeriod : Q) (s : Tracker)
    : Tracker :=
  {| period := basePeriod; phase := timestamp;
     targetPeriod := basePeriod; confidence := 0.5;
     calOnsets := calOnsets s; state := TRACKING;
     onsetCount := onsetCount s; gridHits := gridHits s;
     gridMisses := gridMisses s;
     recentPeriods := [basePeriod];
     lastOnsetTime := lastOnsetTime s;
     silenceCheckInterval := silenceCheckInterval s |}.

Definition addOnset (timestamp : Q) (s0 : Tracker) : Tracker * list Event :=
  let s := noteOnset timestamp s0 in
  (* Capture state before processing *)
  let periodBefore := period s in
  let targetPeriodBefore := targetPeriod s in
  if State_eqb (state s) WAITING then
    (* If waiting between songs, start fresh calibration *)
    let s' := resumeCalibration timestamp s in
    (s',
     [EvTrace
        (resume_from_waiting timestamp (state s') periodBefore (period s')
           targetPeriodBefore (targetPeriod s') (confidence s')
           (onsetCount s'));
      EvUpdate (updateOf s')])
  else if State_eqb (state s) CALIBRATING then
    (* ---- CALIBRATION PHASE ---- *)
    let s1 := pushCalOnset timestamp s in
    if (length (calOnsets s1) <? CAL_BEATS C + 1)%nat then
      (s1,
       [EvTrace
          (calibrating timestamp (state s1) (length (calOnsets s1))
             (CAL_BEATS C) (onsetCount s1));
        EvUpdate (updateOf s1)])
    else
      (* Compute intervals and find dominant period *)
      let intervals := intervalsOf (calOnsets s1) in
      let basePeriod := findDominantPeriod intervals in
      if Js.ltb 0 basePeriod then
        let s2 := completeCalibration timestamp basePeriod s1 in
        (s2,
         [EvTrace
            (calibration_complete timestamp (state s2) intervals basePeriod
               (period s2) (targetPeriod s2)
               (60000 / period s2) (60000 / targetPeriod s2) 0
               (confidence s2 * 100) (onsetCount s2));
          EvUpdate (updateOf s2)])
      else (s1, emitUpdate s1)
  (* ---- TRACKING PHASE ---- *)
  else if negb (State_eqb (state s) TRACKING) || Js.eqb (period s) 0 then
    (s, [])
  else trackOnset timestamp periodBefore targetPeriodBefore s.

(** [now] is what [performance.now()] returns. *)
Definition setTarget (bpm now : Q) (s : Tracker) : Tracker * list Event :=
  let targetPeriod' := 60000 / bpm in
  let s' :=
    {| period := targetPeriod'; phase := now;
       targetPeriod := targetPeriod'; confidence := 0.7;
       calOnsets := repeat 0 (CAL_BEATS C + 1); state := TRACKING;
       onsetCount := onsetCount s; gridHits := gridHits s;
       gridMisses := gridMisses s;
       recentPeriods := recentPeriods s;
       lastOnsetTime := lastOnsetTime s;
       silenceCheckInterval := silenceCheckInterval s |} in
  (s', emitUpdate s').

End Tracker.

(* ====================================================================== *)
(** ** Sessions: sequences of calls on one tracker                         *)
(* ====================================================================== *)

(** A call of the public interface, or one firing of the interval timer
    installed by [startSilenceWatch]. *)
Inductive Op : Type :=
| OpReset
| OpAddOnset (timestamp : Q)
| OpSetTarget (bpm now : Q)
| OpStartSilenceWatch
| OpStopSilenceWatch
| OpDestroy
| OpSilenceTick (now : Q).

(** [setTarget] is documented for positive tempi; every other call is
    unconstrained. *)
Definition op_ok (op : Op) : Prop :=
  match op with
  | OpSetTarget bpm _ => 0 < bpm
  | _ => True
  end.

Section Session.

Variable C : Constants.

(** The timer fires only while it is installed. *)
Definition step (op : Op) (s : Tracker) : Tracker * list Event :=
  match op with
  | OpReset => reset C s
  | OpAddOnset timestamp => addOnset C timestamp s
  | OpSetTarget bpm now => setTarget C bpm now s
  | OpStartSilenceWatch => startSilenceWatch s
  | OpStopSilenceWatch => stopSilenceWatch s
  | OpDestroy => destroy s
  | OpSilenceTick now =>
      if silenceCheckInterval s then silenceCheck C now s else (s, [])
  end.

(** Runs the calls in order and collects what the sinks received. *)
Fixpoint run (ops : list Op) (s : Tracker) : Tracker * list Event :=
  match ops with
  | [] => (s, [])
  | op :: ops' =>
      let (s1, evs1) := step op s in
      let (s2, evs2) := run ops' s1 in
      (s2, evs1 ++ evs2)
  end.

(** The tracker and the sink calls of a whole session, from creation. *)
Definition session (ops : list Op) : Tracker * list Event :=
  run ops createBeatTracker.

End Session.

(** Onsets at a fixed spacing, as the synthetic generators produce. *)
Fixpoint onsetsEvery (spacing start : Q) (n : nat) : list Op :=
  match n with
  | O => []
  | S n' => OpAddOnset start :: onsetsEvery spacing (start + spacing) n'
  end.

(* ====================================================================== *)
(** ** The estimator as the specification words it                         *)
(* ====================================================================== *)

(** The reference algorithm, step by step as the specification gives it:
    discard, sort ascending, lower 60%, median of the candidates, count
    of the intervals that fit, fallback.  It shares nothing with
    [findDominantPeriod] but the numeric tests: it sorts with a sort of
    its own and is parameterised by the reading of the word median. *)
Module Reference.

(** An interval is kept when it lies in the open range
    [(MIN_PERIOD_MS, 2000)]. *)
Definition in_range (min_period iv : Q) : bool :=
  Js.ltb min_period iv && Js.ltb iv 2000.

(** The median of an ascending list: the middle element, and the mean
    of the two middle elements when the length is even. *)
Definition median (xs : list Q) : Q :=
  let n := length xs in
  if Nat.even n
  then (nth (n / 2 - 1)%nat xs 0 + nth (n / 2)%nat xs 0) / 2
  else nth (n / 2)%nat xs 0.

(** The other reading: the element at index [floor (n / 2)], which is
    the median for an odd length and the upper of the two middle
    elements for an even one. *)
Definition middle (xs : list Q) : Q := nth (length xs / 2)%nat xs 0.

(** The lower 60% of [n] elements, rounded up, at least one. *)
Definition lower_sixty (n : nat) : nat :=
  Nat.max 1 (Z.to_nat (Qceiling (0.6 * inject_Z (Z.of_nat n)))).

(** The interval is within 15% of [k] times the base, for a [k] in
    [[1,4]]. *)
Definition fits (base iv : Q) : bool :=
  existsb (fun k => Js.ltb (Qabs (iv / base - inject_Z k)) 0.15)
    [1; 2; 3; 4]%Z.

(** Sorting ascending: each element in turn is put behind the elements
    that are not greater. *)
Fixpoint insert (a : Q) (xs : list Q) : list Q :=
  match xs with
  | [] => [a]
  | b :: xs' => if Js.ltb a b then a :: b :: xs' else b :: insert a xs'
  end.

Definition sort (xs : list Q) : list Q :=
  fold_left (fun acc a => insert a acc) xs [].

(** The steps after the sort, on the ascending list of the valid
    intervals; [med] is the reading of the word median. *)
Definition result (med : list Q -> Q) (valid : list Q) : Q :=
  match valid with
  | [] => 0
  | _ :: _ =>
      let trial := med (firstn (lower_sixty (length valid)) valid) in
      let fitting := length (filter (fits trial) valid) in
      if (length valid <=? 2 * fitting)%nat then trial else med valid
  end.

Definition dominant_period (med : list Q -> Q) (min_period : Q)
    (intervals : list Q) : Q :=
  result med (sort (filter (in_range min_period) intervals)).

End Reference.

(** [findDominantPeriod] with its filter moved in front of its sort and
    its loop written as a count: the form of the code the proofs work
    on ([findDominantPeriod_filteredFirst] shows that it is the code). *)
Definition filteredFirst (min_period : Q) (intervals : list Q) : Q :=
  match filter (Reference.in_range min_period) intervals with
  | [] => 0
  | iv :: ivs =>
      let valid := Js.sort_asc (iv :: ivs) in
      let trial :=
        Reference.middle
          (firstn (Reference.lower_sixty (length valid)) valid) in
      let fitting := length (filter (Reference.fits trial) valid) in
      if (length valid <=? 2 * fitting)%nat
      then trial else Reference.middle valid
  end.

(** The test [fractionalError < 0.15] of the code is made on doubles,
    that of this development on exact rationals; the two can differ
    only when a fractional error is within the rounding of the doubles
    of 0.15 (as for 1150 / 1000, which the doubles accept).  An input
    is clear of the tolerance when no ratio of two of its valid
    intervals has a distance to 1, 2, 3 or 4 that is within 10^-9 of
    0.15: on such an input the test has the same outcome in both. *)
Definition toleranceClear (min_period : Q) (intervals : list Q) : bool :=
  let valid := filter (Reference.in_range min_period) intervals in
  forallb (fun base =>
    forallb (fun iv =>
      forallb (fun k =>
        Js.ltb (1 # 1000000000)
               (Qabs (Qabs (iv / base - inject_Z k) - 0.15)))
        [1; 2; 3; 4]%Z) valid) valid.

(* ====================================================================== *)
(** ** Properties of states and of sessions                                *)
(* ====================================================================== *)

(** The constants the tracking arithmetic is meant for: a non-negative
    minimum period and an adaptation rate that is a fraction. *)
Definition constants_ok (C : Constants) : Prop :=
  0 <= MIN_PERIOD_MS C /\ 0 <= ADAPT_FAST C /\ ADAPT_FAST C <= 1.

Definition confidence_bounded (s : Tracker) : Prop :=
  0 <= confidence s /\ confidence s <= 1.

(** The [confidence] field of an [Update] is a percentage. *)
Definition update_confidence_bounded (e : Event) : Prop :=
  match e with
  | EvUpdate u => (0 <= u_confidence u <= 100)%Z
  | EvTrace _ => True
  end.

(** While tracking, the period is a positive number. *)
Definition tracking_has_period (s : Tracker) : Prop :=
  state s = TRACKING -> 0 < period s.

(** What the states say about the calibration buffer. *)
Definition calOnsets_by_state (C : Constants) (s : Tracker) : Prop :=
  (state s = IDLE -> calOnsets s = [])
  /\ (state s = TRACKING -> (CAL_BEATS C + 1 <= length (calOnsets s))%nat).

(** How an [Update] reports an undefined tempo. *)
Definition update_null_tempo (u : Update) : Prop :=
  (u_period u == 0 -> u_currentBpm u = None)
  /\ (u_targetPeriod u == 0 -> u_targetBpm u = None)
  /\ (u_currentBpm u = None \/ u_targetBpm u = None -> u_drift u == 0).

(** The [Update] is the snapshot of some tracker state. *)
Definition is_snapshot (C : Constants) (e : Event) : Prop :=
  match e with
  | EvUpdate u => exists s, u = updateOf C s
  | EvTrace _ => True
  end.

(* ====================================================================== *)
(** ** Sessions used as examples                                           *)
(* ====================================================================== *)

(** Nine onsets 500 ms apart after [reset]: calibration completes at
    120 BPM on the ninth. *)
Definition calibrated_ops : list Op := OpReset :: onsetsEvery 500 0 9.

Definition calibrated : Tracker := fst (session CONSTANTS calibrated_ops).

(** One onset 20 ms late, then six onsets about half a beat off the
    grid. *)
Definition drifted_ops : list Op :=
  calibrated_ops
  ++ [OpAddOnset 4520; OpAddOnset 4777; OpAddOnset 5279; OpAddOnset 5780;
      OpAddOnset 6282; OpAddOnset 6783; OpAddOnset 7285].

Definition drifted : Tracker := fst (session CONSTANTS drifted_ops).

(** Silence after a single onset of a calibration. *)
Definition silent_calibration_ops : list Op :=
  [OpStartSilenceWatch; OpReset; OpAddOnset 1000; OpSilenceTick 6000].

(** Silence after a completed calibration. *)
Definition silent_tracking_ops : list Op :=
  OpStartSilenceWatch :: calibrated_ops ++ [OpSilenceTick 9000].

Definition silenced : Tracker := fst (session CONSTANTS silent_tracking_ops).

(* ====================================================================== *)
(** ** The trace buffer                                                    *)
(* ====================================================================== *)

Module TraceBuffer.

Section Buffer.

(** What [add] is handed: any object. *)
Variable A : Type.

(** [{ ...entry, _index }]. *)
Record Entry : Type := mkEntry {
  payload : A;
  index : nat
}.

(** The array [entries] of [createTraceBuffer(maxSize)], empty at
    creation. *)
Definition createTraceBuffer : list Entry := [].

Definition add (maxSize : Z) (entry : A) (entries : list Entry)
    : list Entry :=
  let pushed := entries ++ [mkEntry entry (length entries)] in
  if (maxSize <? Z.of_nat (length pushed))%Z then Js.shift pushed
  else pushed.

Definition getAll (entries : list Entry) : list Entry := entries.

(** [entries.slice(start)]. *)
Definition slice (start : Z) (entries : list Entry) : list Entry :=
  let len := Z.of_nat (length entries) in
  let from :=
    if (start <? 0)%Z then Z.max (len + start) 0 else Z.min start len in
  skipn (Z.to_nat from) entries.

Definition getLast (n : Z) (entries : list Entry) : list Entry :=
  slice (- n) entries.

Definition clear (entries : list Entry) : list Entry := [].

(** [add] called on each element of [xs] in turn. *)
Definition addAll (maxSize : Z) (xs : list A) (entries : list Entry)
    : list Entry :=
  fold_left (fun es x => add maxSize x es) xs entries.

End Buffer.

Arguments payload {A} _.
Arguments index {A} _.
Arguments createTraceBuffer {A}.
Arguments add {A} _ _ _.
Arguments getAll {A} _.
Arguments slice {A} _ _.
Arguments getLast {A} _ _.
Arguments clear {A} _.
Arguments addAll {A} _ _ _.

End TraceBuffer.

(** The [Update]s and the trace records among sink calls, in order. *)
Definition updatesOf (evs : list Event) : list Update :=
  flat_map (fun e => match e with EvUpdate u => [u] | EvTrace _ => [] end) evs.

Definition tracesOf (evs : list Event) : list TraceRecord :=
  flat_map (fun e => match e with EvTrace r => [r] | EvUpdate _ => [] end) evs.

(* ====================================================================== *)
(** ** Synthetic onset generators                                          *)
(* ====================================================================== *)

Definition generatePerfectTempo (bpm : Q) (beats : nat) (startTime : Q)
    : list Q :=
  let period := 60000 / bpm in
  map (fun i => startTime + inject_Z (Z.of_nat i) * period) (seq 0 beats).




(** [xs.filter((_, i) => keep(i))], [i] counting from [from]. *)
Fixpoint filterIndexed {A : Type} (keep : nat -> bool) (from : nat)
    (xs : list A) : list A :=
  match xs with
  | [] => []
  | x :: xs' =>
      if keep from then x :: filterIndexed keep (S from) xs'
      else filterIndexed keep (S from) xs'
  end.

(** [missSet.has(i)]. *)
Definition missed (missIndices : list nat) (i : nat) : bool :=
  existsb (Nat.eqb i) missIndices.

Definition generateWithMissedBeats (bpm : Q) (beats : nat)
    (missIndices : list nat) (startTime : Q) : list Q :=
  let all := generatePerfectTempo bpm beats startTime in
  filterIndexed (fun i => negb (missed missIndices i)) 0 all.

(* ====================================================================== *)
(** ** The scenario runner                                                 *)
(* ====================================================================== *)

(** An entry of [scenario.expectations]; an absent bound is [None]. *)
Record Expectation : Type := mkExpectation {
  after_onset : Z;
  drift_min : option Q;
  drift_max : option Q;
  exp_state : option State
}.

(** An entry of [results.checks], without its message. *)
Record Check : Type := mkCheck {
  check_after_onset : Z;
  check_actual : option Update;
  check_passed : bool
}.

(** The three tests made on the [Update] an expectation is compared
    with. *)
Definition expectationMet (exp : Expectation) (update : Update) : bool :=
  negb (match drift_min exp with
        | Some lo => Js.ltb (u_drift update) lo
        | None => false
        end)
  && negb (match drift_max exp with
           | Some hi => Js.ltb hi (u_drift update)
           | None => false
           end)
  && negb (match exp_state exp with
           | Some st => negb (State_eqb (u_state update) st)
           | None => false
           end).

(** The [Update] an expectation is compared with: [updates[afterIdx]]
    when [afterIdx = after_onset - 1] is an index of [updates]. *)
Definition expectedUpdate (updates : list Update) (exp : Expectation)
    : option Update :=
  let afterIdx := (after_onset exp - 1)%Z in
  if (0 <=? afterIdx)%Z && (afterIdx <? Z.of_nat (length updates))%Z
  then nth_error updates (Z.to_nat afterIdx)
  else None.

(** The object [getState] returns. *)
Record Snapshot : Type := mkSnapshot {
  snap_state : State;
  snap_period : Q;
  snap_phase : Q;
  snap_targetPeriod : Q;
  snap_confidence : Q;
  snap_gridHits : Z;
  snap_gridMisses : Z;
  snap_onsetCount : Z;
  snap_calOnsets : list Q;
  snap_recentPeriods : list Q
}.

Definition getState (s : Tracker) : Snapshot :=
  {| snap_state := state s;
     snap_period := period s;
     snap_phase := phase s;
     snap_targetPeriod := targetPeriod s;
     snap_confidence := confidence s;
     snap_gridHits := gridHits s;
     snap_gridMisses := gridMisses s;
     snap_onsetCount := onsetCount s;
     snap_calOnsets := calOnsets s;
     snap_recentPeriods := recentPeriods s |}.

(** The result of [runScenario]: the checks, [passed], what the trace
    buffer holds, the [Update]s received and the final state. *)
Record ScenarioResult : Type := mkScenarioResult {
  res_passed : bool;
  res_checks : list Check;
  res_trace : list (TraceBuffer.Entry TraceRecord);
  res_updates : list Update;
  res_finalState : option Snapshot
}.

Section Runner.

Variable C : Constants.

(** The calls [runScenario] makes on the tracker it creates: [reset],
    then [addOnset] for each onset. *)
Definition scenarioOps (onsets : list Q) : list Op :=
  OpReset :: map OpAddOnset onsets.

(** [runScenario] of [core/beat_tracker.js], for a scenario that lists
    its onsets: an expectation whose index is out of range produces no
    check. *)
Definition runScenario (onsets : list Q) (expectations : list Expectation)
    : ScenarioResult :=
  let (tracker, evs) := session C (scenarioOps onsets) in
  let updates := updatesOf evs in
  let trace :=
    TraceBuffer.addAll 10000 (tracesOf evs) TraceBuffer.createTraceBuffer in
  let checks :=
    flat_map
      (fun exp =>
         match expectedUpdate updates exp with
         | Some update =>
             [mkCheck (after_onset exp) (Some update)
                (expectationMet exp update)]
         | None => []
         end)
      expectations in
  {| res_passed := forallb check_passed checks;
     res_checks := checks;
     res_trace := TraceBuffer.getAll trace;
     res_updates := updates;
     res_finalState := Some (getState tracker) |}.


End Runner.

(* ====================================================================== *)
(** ** Further properties of states                                        *)
(* ====================================================================== *)

(** The hit and miss counters count onsets. *)
Definition counters_consistent (s : Tracker) : Prop :=
  (0 <= gridHits s)%Z /\ (0 <= gridMisses s)%Z
  /\ (gridHits s + gridMisses s <= onsetCount s)%Z.

(** The smoothing history is a bounded queue. *)
Definition history_bounded (C : Constants) (s : Tracker) : Prop :=
  (length (recentPeriods s) <= Nat.max 1 (PERIOD_HISTORY C))%nat.

(** The rates of the two exponential filters are fractions. *)
Definition rates_ok (C : Constants) : Prop :=
  0 <= ADAPT_FAST C /\ ADAPT_FAST C <= 1
  /\ 0 <= ADAPT_SLOW C /\ ADAPT_SLOW C <= 1.

(** A call other than [setTarget]. *)
Definition not_setTarget (op : Op) : Prop :=
  match op with
  | OpSetTarget _ _ => False
  | _ => True
  end.

(** Both periods lie strictly between [MIN_PERIOD_MS] and the larger of
    2000 and [MAX_PERIOD_MS]. *)
Definition periods_in_range (C : Constants) (s : Tracker) : Prop :=
  MIN_PERIOD_MS C < period s
  /\ period s < Qmax 2000 (MAX_PERIOD_MS C)
  /\ MIN_PERIOD_MS C < targetPeriod s
  /\ targetPeriod s < Qmax 2000 (MAX_PERIOD_MS C).

(** No calibration has completed since the last [reset], or both
    periods are in range. *)
Definition calibrated_in_range (C : Constants) (s : Tracker) : Prop :=
  (period s == 0 /\ targetPeriod s == 0 /\ state s <> TRACKING)
  \/ periods_in_range C s.


(** The calls that take a tracker out of IDLE. *)
Definition leaves_idle (op : Op) : Prop :=
  match op with
  | OpReset | OpSetTarget _ _ => True
  | _ => False
  end.

Definition is_startSilenceWatch (op : Op) : Prop :=
  match op with
  | OpStartSilenceWatch => True
  | _ => False
  end.

Definition is_silenceTick (op : Op) : Prop :=
  match op with
  | OpSilenceTick _ => True
  | _ => False
  end.

(** Nothing but the onset bookkeeping and the timer has changed since
    creation. *)
Definition untouched (s : Tracker) : Prop :=
  state s = IDLE /\ period s = 0 /\ phase s = 0 /\ targetPeriod s = 0
  /\ confidence s = 0 /\ calOnsets s = [] /\ gridHits s = 0%Z
  /\ gridMisses s = 0%Z /\ recentPeriods s = [].

(** The silence timer would force WAITING at time [now]. *)
Definition silent (C : Constants) (now : Q) (s : Tracker) : Prop :=
  (state s = TRACKING \/ state s = CALIBRATING)
  /\ 0 < lastOnsetTime s
  /\ SILENCE_TIMEOUT_MS C < now - lastOnsetTime s.

(** The last [n] elements of a list, the whole list when it has fewer. *)
Definition lastN {A : Type} (n : nat) (xs : list A) : list A :=
  skipn (length xs - n) xs.

(** What [add] has been handed since the buffer was last empty, each
    element with the stamp it received: its rank, capped at the capacity
    [cap]. *)
Fixpoint stampedFrom {A : Type} (cap rank : nat) (xs : list A)
    : list (TraceBuffer.Entry A) :=
  match xs with
  | [] => []
  | x :: xs' =>
      TraceBuffer.mkEntry A x (Nat.min rank cap)
      :: stampedFrom cap (S rank) xs'
  end.

Definition stamped {A : Type} (cap : nat) (xs : list A)
    : list (TraceBuffer.Entry A) :=
  stampedFrom cap 0 xs.

(** The calls that the call [op] makes to the sinks when it is made
    after the calls [pre] of a session. *)
Definition emittedBy (C : Constants) (pre : list Op) (op : Op)
    : list Event :=
  snd (step C op (fst (session C pre))).




(* ====================================================================== *)
(** ** Numeric tests                                                       *)
(* ====================================================================== *)

Lemma ltb_lt (a b : Q) : Js.ltb a b = true <-> a < b.
Proof.
  unfold Js.ltb. rewrite negb_true_iff.
  split; intro H.
  - apply Qnot_le_lt. intro Hle. apply Qle_bool_iff in Hle. congruence.
  - destruct (Qle_bool b a) eqn:E; [| reflexivity].
    apply Qle_bool_iff in E. exfalso. exact (Qlt_not_le _ _ H E).
Qed.

Lemma ltb_ge (a b : Q) : Js.ltb a b = false <-> b <= a.
Proof.
  unfold Js.ltb. rewrite negb_false_iff. apply Qle_bool_iff.
Qed.

Lemma leb_le (a b : Q) : Js.leb a b = true <-> a <= b.
Proof. apply Qle_bool_iff. Qed.

Lemma eqb_eq (a b : Q) : Js.eqb a b = true <-> a == b.
Proof. apply Qeq_bool_iff. Qed.

Lemma Qle_bool_false (a b : Q) : Qle_bool a b = false -> b <= a.
Proof.
  intro H. apply Qlt_le_weak, Qnot_le_lt. intro Hle.
  apply Qle_bool_iff in Hle. congruence.
Qed.

(** [Math.round] returns the integer [k] on the half-open unit interval
    centred on [k]. *)
Lemma round_unique (x : Q) (k : Z) :
  inject_Z k - 0.5 <= x -> x < inject_Z k + 0.5 -> Js.round x = k.
Proof.
  intros Hlo Hhi. unfold Js.round.
  pose proof (Qfloor_le (x + 0.5)) as Hf.
  pose proof (Qlt_floor (x + 0.5)) as Hc.
  rewrite inject_Z_plus in Hc. change (inject_Z 1) with 1 in Hc.
  assert (Hk1 : inject_Z (Qfloor (x + 0.5)) < inject_Z (k + 1)).
  { rewrite inject_Z_plus. change (inject_Z 1) with 1. lra. }
  assert (Hk2 : inject_Z k < inject_Z (Qfloor (x + 0.5) + 1)).
  { rewrite inject_Z_plus. change (inject_Z 1) with 1. lra. }
  rewrite <- Zlt_Qlt in Hk1, Hk2. lia.
Qed.

Lemma round_bounds (x : Q) :
  inject_Z (Js.round x) - 0.5 <= x /\ x < inject_Z (Js.round x) + 0.5.
Proof.
  unfold Js.round.
  pose proof (Qfloor_le (x + 0.5)) as Hf.
  pose proof (Qlt_floor (x + 0.5)) as Hc.
  rewrite inject_Z_plus in Hc. change (inject_Z 1) with 1 in Hc.
  split; lra.
Qed.

(* ====================================================================== *)
(** ** Sorting                                                             *)
(* ====================================================================== *)

Lemma insert_asc_length (a : Q) (xs : list Q) :
  length (Js.insert_asc a xs) = S (length xs).
Proof.
  induction xs as [| b xs IH]; simpl; [reflexivity |].
  destruct (Qle_bool a b); simpl; congruence.
Qed.

Lemma sort_asc_length (xs : list Q) : length (Js.sort_asc xs) = length xs.
Proof.
  induction xs as [| a xs IH]; simpl; [reflexivity |].
  rewrite insert_asc_length. congruence.
Qed.

Lemma insert_asc_Forall (P : Q -> Prop) (a : Q) (xs : list Q) :
  P a -> Forall P xs -> Forall P (Js.insert_asc a xs).
Proof.
  intros Ha Hxs. induction Hxs as [| b xs Hb Hxs IH]; simpl.
  - constructor; [assumption | constructor].
  - destruct (Qle_bool a b); repeat constructor; assumption.
Qed.

Lemma insert_asc_sorted (a : Q) (xs : list Q) :
  StronglySorted Qle xs -> StronglySorted Qle (Js.insert_asc a xs).
Proof.
  induction 1 as [| b xs Hs IH Hb]; simpl.
  - repeat constructor.
  - destruct (Qle_bool a b) eqn:E.
    + apply Qle_bool_iff in E. constructor.
      * constructor; assumption.
      * constructor; [assumption |].
        eapply Forall_impl; [| exact Hb].
        intros c Hc. exact (Qle_trans _ _ _ E Hc).
    + apply Qle_bool_false in E. constructor; [assumption |].
      apply insert_asc_Forall; assumption.
Qed.

Lemma sort_asc_sorted (xs : list Q) : StronglySorted Qle (Js.sort_asc xs).
Proof.
  induction xs as [| a xs IH]; simpl.
  - constructor.
  - apply insert_asc_sorted, IH.
Qed.

(** An element that nothing in the list precedes is inserted in front. *)
Lemma insert_asc_front (a : Q) (xs : list Q) :
  Forall (Qle a) xs -> Js.insert_asc a xs = a :: xs.
Proof.
  intros H. destruct H as [| b xs Hb _]; simpl; [reflexivity |].
  apply Qle_bool_iff in Hb. rewrite Hb. reflexivity.
Qed.

Lemma filter_insert_asc (p : Q -> bool) (a : Q) (xs : list Q) :
  StronglySorted Qle xs ->
  filter p (Js.insert_asc a xs) =
  if p a then Js.insert_asc a (filter p xs) else filter p xs.
Proof.
  induction 1 as [| b xs Hs IH Hb]; simpl.
  - destruct (p a); reflexivity.
  - destruct (Qle_bool a b) eqn:E.
    + apply Qle_bool_iff in E. simpl.
      destruct (p a) eqn:Ea; [| reflexivity].
      symmetry. apply insert_asc_front.
      assert (Hall : Forall (Qle a) (b :: xs)).
      { constructor; [assumption |].
        eapply Forall_impl; [| exact Hb].
        intros c Hc. exact (Qle_trans _ _ _ E Hc). }
      change (Forall (Qle a) (filter p (b :: xs))).
      rewrite Forall_forall in *. intros c Hc.
      apply filter_In in Hc. apply Hall, Hc.
    + simpl. rewrite IH.
      destruct (p b) eqn:Eb, (p a) eqn:Ea; simpl; rewrite ?E; reflexivity.
Qed.

(** Sorting and keeping the valid intervals commute. *)
Lemma filter_sort_asc (p : Q -> bool) (xs : list Q) :
  filter p (Js.sort_asc xs) = Js.sort_asc (filter p xs).
Proof.
  induction xs as [| a xs IH]; simpl; [reflexivity |].
  rewrite filter_insert_asc by apply sort_asc_sorted.
  rewrite IH. destruct (p a); reflexivity.
Qed.

(* ====================================================================== *)
(** ** The estimator                                                       *)
(* ====================================================================== *)

(** Rounding the ratio and testing the rounded value against [[1,4]]
    accepts exactly the ratios within 0.15 of one of 1, 2, 3, 4. *)
Lemma fitsMultiple_fits (base iv : Q) :
  fitsMultiple base iv = Reference.fits base iv.
Proof.
  unfold fitsMultiple, Reference.fits, Js.abs.
  set (ratio := iv / base).
  destruct (existsb _ _) eqn:Ex.
  - apply existsb_exists in Ex. destruct Ex as [k [Hk Hlt]].
    apply ltb_lt in Hlt.
    assert (Hr : Js.round ratio = k).
    { apply round_unique.
      - pose proof (Qle_Qabs (- (ratio - inject_Z k))) as H1.
        rewrite Qabs_opp in H1. lra.
      - pose proof (Qle_Qabs (ratio - inject_Z k)) as H1. lra. }
    rewrite Hr.
    assert (Hl : Js.ltb (Qabs (ratio - inject_Z k)) 0.15 = true)
      by (apply ltb_lt; exact Hlt).
    rewrite Hl. simpl in Hk.
    destruct Hk as [<- | [<- | [<- | [<- | []]]]]; reflexivity.
  - destruct (Js.ltb (Qabs (ratio - inject_Z (Js.round ratio))) 0.15) eqn:El;
      [| reflexivity].
    destruct (1 <=? Js.round ratio)%Z eqn:E1; [| reflexivity].
    destruct (Js.round ratio <=? 4)%Z eqn:E4; [| reflexivity].
    exfalso.
    apply Z.leb_le in E1, E4.
    assert (Hin : In (Js.round ratio) [1; 2; 3; 4]%Z) by (simpl; lia).
    assert (Hex : existsb
                    (fun k => Js.ltb (Qabs (ratio - inject_Z k)) 0.15)
                    [1; 2; 3; 4]%Z = true).
    { apply existsb_exists. exists (Js.round ratio). split; assumption. }
    congruence.
Qed.

(** The scoring loop counts the intervals that pass its test. *)
Lemma score_count (f : Q -> bool) (xs : list Q) (acc : Z) :
  fold_left (fun score iv => if f iv then (score + 1)%Z else score) xs acc
  = (acc + Z.of_nat (length (filter f xs)))%Z.
Proof.
  revert acc. induction xs as [| x xs IH]; intro acc; simpl.
  - lia.
  - rewrite IH. destruct (f x); simpl length; lia.
Qed.

Lemma lower_sixty_code (n : nat) :
  Z.to_nat (Z.max 1 (Js.ceil (inject_Z (Z.of_nat n) * 0.6)))
  = Reference.lower_sixty n.
Proof.
  unfold Reference.lower_sixty, Js.ceil.
  rewrite Z2Nat.inj_max.
  rewrite (Qceiling_comp _ _ (Qmult_comm (inject_Z (Z.of_nat n)) 0.6)).
  reflexivity.
Qed.

Lemma at_least_half (n fitting : nat) :
  Js.leb (inject_Z (Z.of_nat n) * 0.5) (inject_Z (Z.of_nat fitting))
  = (n <=? 2 * fitting)%nat.
Proof.
  destruct (n <=? 2 * fitting)%nat eqn:E.
  - apply Nat.leb_le in E. apply leb_le.
    unfold Qle. simpl. lia.
  - apply Nat.leb_gt in E.
    destruct (Js.leb _ _) eqn:El; [| reflexivity].
    apply leb_le in El. unfold Qle in El. simpl in El. lia.
Qed.

(** The code sorts, then filters, and scores with a loop;
    [filteredFirst] filters, then sorts, and counts.  They agree on
    every input. *)
Lemma findDominantPeriod_filteredFirst (C : Constants) (intervals : list Q) :
  findDominantPeriod C intervals
  = filteredFirst (MIN_PERIOD_MS C) intervals.
Proof.
  unfold findDominantPeriod, filteredFirst.
  destruct intervals as [| i0 rest]; [reflexivity |].
  change (length (i0 :: rest) =? 0)%nat with false. cbv iota.
  change (fun i => Js.ltb (MIN_PERIOD_MS C) i && Js.ltb i 2000)
    with (Reference.in_range (MIN_PERIOD_MS C)).
  rewrite filter_sort_asc.
  destruct (filter (Reference.in_range (MIN_PERIOD_MS C)) (i0 :: rest))
    as [| iv ivs] eqn:Ef; [reflexivity |].
  set (valid := Js.sort_asc (iv :: ivs)).
  assert (Hlen : (length valid =? 0)%nat = false).
  { unfold valid. rewrite sort_asc_length. reflexivity. }
  rewrite Hlen. cbv zeta.
  rewrite lower_sixty_code.
  fold (Reference.middle
          (firstn (Reference.lower_sixty (length valid)) valid)).
  fold (Reference.middle valid).
  set (trial := Reference.middle _).
  rewrite score_count. rewrite Z.add_0_l.
  rewrite at_least_half.
  rewrite (filter_ext _ _ (fitsMultiple_fits trial)).
  reflexivity.
Qed.

(* ====================================================================== *)
(** ** The estimator and the reference                                     *)
(* ====================================================================== *)

(** The sort of the code is a sort: its result is a rearrangement of
    its argument (and ascending, by [sort_asc_sorted]). *)
Lemma insert_asc_perm (a : Q) (xs : list Q) :
  Permutation (Js.insert_asc a xs) (a :: xs).
Proof.
  induction xs as [| b xs IH]; simpl.
  - apply Permutation_refl.
  - destruct (Qle_bool a b).
    + apply Permutation_refl.
    + apply perm_trans with (b :: a :: xs).
      * apply perm_skip, IH.
      * apply perm_swap.
Qed.

Lemma sort_asc_perm (xs : list Q) : Permutation (Js.sort_asc xs) xs.
Proof.
  induction xs as [| a xs IH]; simpl.
  - apply perm_nil.
  - apply perm_trans with (a :: Js.sort_asc xs).
    + apply insert_asc_perm.
    + apply perm_skip, IH.
Qed.

(** So is the sort of the reference. *)
Lemma reference_insert_Forall (P : Q -> Prop) (a : Q) (xs : list Q) :
  P a -> Forall P xs -> Forall P (Reference.insert a xs).
Proof.
  intros Ha Hxs. induction Hxs as [| b xs Hb Hxs IH]; simpl.
  - constructor; [assumption | constructor].
  - destruct (Js.ltb a b).
    + constructor; [assumption |]. constructor; assumption.
    + constructor; assumption.
Qed.

Lemma reference_insert_sorted (a : Q) (xs : list Q) :
  StronglySorted Qle xs -> StronglySorted Qle (Reference.insert a xs).
Proof.
  induction 1 as [| b xs Hs IH Hb]; simpl.
  - constructor; constructor.
  - destruct (Js.ltb a b) eqn:E.
    + apply ltb_lt in E.
      constructor.
      * constructor; assumption.
      * constructor; [lra |].
        eapply Forall_impl; [| exact Hb]. intros c Hc. cbv beta in *. lra.
    + apply ltb_ge in E.
      constructor; [exact IH |].
      apply reference_insert_Forall; assumption.
Qed.

Lemma reference_insert_perm (a : Q) (xs : list Q) :
  Permutation (Reference.insert a xs) (a :: xs).
Proof.
  induction xs as [| b xs IH]; simpl.
  - apply Permutation_refl.
  - destruct (Js.ltb a b).
    + apply Permutation_refl.
    + apply perm_trans with (b :: a :: xs).
      * apply perm_skip, IH.
      * apply perm_swap.
Qed.

Lemma reference_sort_sorted (xs : list Q) :
  StronglySorted Qle (Reference.sort xs).
Proof.
  unfold Reference.sort.
  assert (H : forall acc, StronglySorted Qle acc ->
                StronglySorted Qle
                  (fold_left (fun acc a => Reference.insert a acc) xs acc)).
  { induction xs as [| a xs IH]; intros acc Hacc; simpl.
    - exact Hacc.
    - apply IH, reference_insert_sorted, Hacc. }
  apply H. constructor.
Qed.

Lemma reference_sort_perm (xs : list Q) : Permutation (Reference.sort xs) xs.
Proof.
  unfold Reference.sort.
  assert (H : forall acc,
                Permutation
                  (fold_left (fun acc a => Reference.insert a acc) xs acc)
                  (xs ++ acc)).
  { induction xs as [| a xs IH]; intro acc; simpl.
    - apply Permutation_refl.
    - apply perm_trans with (xs ++ Reference.insert a acc); [apply IH |].
      apply perm_trans with (xs ++ a :: acc).
      + apply Permutation_app_head, reference_insert_perm.
      + apply Permutation_sym, Permutation_middle. }
  specialize (H []). rewrite app_nil_r in H. exact H.
Qed.

(** Two ascending arrangements of the same numbers hold the same number
    at every index: the number at index [i] has at most [i] numbers
    below it and more than [i] numbers not above it, and the two counts
    do not depend on the arrangement. *)
Lemma count_perm {A : Type} (f : A -> bool) (l l' : list A) :
  Permutation l l' -> length (filter f l) = length (filter f l').
Proof.
  induction 1 as [| x l l' _ IH | x y l | l l' l'' _ IH1 _ IH2]; simpl.
  - reflexivity.
  - destruct (f x); simpl; rewrite IH; reflexivity.
  - destruct (f x), (f y); reflexivity.
  - rewrite IH1. exact IH2.
Qed.

Lemma count_mono {A : Type} (f g : A -> bool) (l : list A) :
  (forall x, f x = true -> g x = true) ->
  (length (filter f l) <= length (filter g l))%nat.
Proof.
  intro Hfg. induction l as [| x l IH]; simpl; [lia |].
  destruct (f x) eqn:Ef.
  - rewrite (Hfg x Ef). simpl. lia.
  - destruct (g x); simpl; lia.
Qed.

Lemma sorted_rank (l : list Q) :
  StronglySorted Qle l ->
  forall i, (i < length l)%nat ->
    (length (filter (fun y => Js.ltb y (nth i l 0%Q)) l) <= i)%nat
    /\ (i < length (filter (fun y => Js.leb y (nth i l 0%Q)) l))%nat.
Proof.
  induction 1 as [| a l Hs IH Ha]; intros i Hi; [simpl in Hi; lia |].
  destruct i as [| j].
  - cbn [nth filter].
    assert (E1 : Js.ltb a a = false) by (apply ltb_ge; lra).
    assert (E2 : Js.leb a a = true) by (apply leb_le; lra).
    rewrite E1, E2. split; [| simpl; lia].
    assert (E : filter (fun y => Js.ltb y a) l = []).
    { clear - Ha. induction Ha as [| b l Hb _ IHl]; simpl; [reflexivity |].
      assert (E : Js.ltb b a = false) by (apply ltb_ge; exact Hb).
      rewrite E. exact IHl. }
    rewrite E. simpl. lia.
  - simpl in Hi. assert (Hj : (j < length l)%nat) by lia.
    destruct (IH j Hj) as [H1 H2].
    cbn [nth filter].
    assert (Hin : In (nth j l 0) l) by (apply nth_In; exact Hj).
    assert (Hle : a <= nth j l 0).
    { rewrite Forall_forall in Ha. apply Ha. exact Hin. }
    assert (E2 : Js.leb a (nth j l 0) = true) by (apply leb_le; exact Hle).
    rewrite E2. split.
    + destruct (Js.ltb a (nth j l 0)); simpl; lia.
    + simpl. lia.
Qed.

Lemma sorted_nth_unique (l1 l2 : list Q) (i : nat) :
  StronglySorted Qle l1 -> StronglySorted Qle l2 -> Permutation l1 l2 ->
  (i < length l1)%nat -> nth i l1 0 == nth i l2 0.
Proof.
  intros Hs1 Hs2 Hp Hi.
  assert (Hi2 : (i < length l2)%nat)
    by (rewrite <- (Permutation_length Hp); exact Hi).
  destruct (sorted_rank l1 Hs1 i Hi) as [Hb1 Hu1].
  destruct (sorted_rank l2 Hs2 i Hi2) as [Hb2 Hu2].
  set (x1 := nth i l1 0) in *. set (x2 := nth i l2 0) in *.
  destruct (Q_dec x1 x2) as [[Hlt | Hgt] | Heq]; [| | exact Heq]; exfalso.
  - rewrite (count_perm (fun y => Js.leb y x1) l1 l2 Hp) in Hu1.
    assert (Hm : (length (filter (fun y => Js.leb y x1) l2)
                  <= length (filter (fun y => Js.ltb y x2) l2))%nat).
    { apply count_mono. intros y Hy.
      apply leb_le in Hy. apply ltb_lt. lra. }
    lia.
  - rewrite <- (count_perm (fun y => Js.leb y x2) l1 l2 Hp) in Hu2.
    assert (Hm : (length (filter (fun y => Js.leb y x2) l1)
                  <= length (filter (fun y => Js.ltb y x1) l1))%nat).
    { apply count_mono. intros y Hy.
      apply leb_le in Hy. apply ltb_lt. lra. }
    lia.
Qed.

(** Whether an interval fits depends on the value of the base only. *)
Lemma fits_base (b1 b2 iv : Q) :
  b1 == b2 -> Reference.fits b1 iv = Reference.fits b2 iv.
Proof.
  intro Hb.
  assert (H : forall k,
            Js.ltb (Qabs (iv / b1 - inject_Z k)) 0.15
            = Js.ltb (Qabs (iv / b2 - inject_Z k)) 0.15).
  { intro k. unfold Js.ltb. f_equal.
    apply Qleb_comp; [reflexivity |]. rewrite Hb. reflexivity. }
  unfold Reference.fits. cbn [existsb]. rewrite !H. reflexivity.
Qed.

Lemma nth_firstn_lt (k i : nat) (l : list Q) :
  (i < k)%nat -> nth i (firstn k l) 0 = nth i l 0.
Proof.
  revert k i. induction l as [| a l IH]; intros k i Hik.
  - rewrite firstn_nil. reflexivity.
  - destruct k as [| k]; [lia |]. destruct i as [| i]; [reflexivity |].
    simpl. apply IH. lia.
Qed.

Lemma middle_firstn (k : nat) (l : list Q) :
  (1 <= k)%nat -> l <> [] ->
  Reference.middle (firstn k l)
  = nth (Nat.min k (length l) / 2) l 0.
Proof.
  intros Hk Hl. unfold Reference.middle.
  rewrite length_firstn.
  apply nth_firstn_lt.
  assert (Hlen : (1 <= length l)%nat)
    by (destruct l; [congruence | simpl; lia]).
  pose proof (Nat.div_lt (Nat.min k (length l)) 2) as Hd.
  lia.
Qed.

(** The reference's steps give the same number on two ascending
    arrangements of the same intervals, when the median is read as the
    element at index [floor (n / 2)]. *)
Lemma result_middle_unique (l1 l2 : list Q) :
  StronglySorted Qle l1 -> StronglySorted Qle l2 -> Permutation l1 l2 ->
  Reference.result Reference.middle l1
  == Reference.result Reference.middle l2.
Proof.
  intros Hs1 Hs2 Hp.
  pose proof (Permutation_length Hp) as Hlen.
  destruct l1 as [| a1 l1'] eqn:E1.
  { apply Permutation_nil in Hp. subst l2. reflexivity. }
  destruct l2 as [| a2 l2'] eqn:E2.
  { simpl in Hlen. lia. }
  rewrite <- E1 in *. rewrite <- E2 in *.
  assert (Hne1 : l1 <> []) by (rewrite E1; discriminate).
  assert (Hne2 : l2 <> []) by (rewrite E2; discriminate).
  assert (Hpos : (1 <= length l1)%nat) by (rewrite E1; simpl; lia).
  assert (R1 : Reference.result Reference.middle l1
               = let trial := Reference.middle
                    (firstn (Reference.lower_sixty (length l1)) l1) in
                 let fitting := length (filter (Reference.fits trial) l1) in
                 if (length l1 <=? 2 * fitting)%nat then trial
                 else Reference.middle l1)
    by (rewrite E1; reflexivity).
  assert (R2 : Reference.result Reference.middle l2
               = let trial := Reference.middle
                    (firstn (Reference.lower_sixty (length l2)) l2) in
                 let fitting := length (filter (Reference.fits trial) l2) in
                 if (length l2 <=? 2 * fitting)%nat then trial
                 else Reference.middle l2)
    by (rewrite E2; reflexivity).
  rewrite R1, R2. cbv zeta. clear R1 R2 E1 E2.
  assert (Hk1 : (1 <= Reference.lower_sixty (length l1))%nat)
    by (unfold Reference.lower_sixty; lia).
  rewrite <- Hlen.
  rewrite !middle_firstn by assumption.
  rewrite <- Hlen.
  set (k := (Nat.min (Reference.lower_sixty (length l1)) (length l1) / 2)%nat).
  assert (Hklt : (k < length l1)%nat).
  { unfold k.
    pose proof (Nat.div_lt
                  (Nat.min (Reference.lower_sixty (length l1)) (length l1)) 2).
    lia. }
  assert (Ht : nth k l1 0 == nth k l2 0)
    by (apply sorted_nth_unique; assumption).
  assert (Hfit : length (filter (Reference.fits (nth k l1 0)) l1)
                 = length (filter (Reference.fits (nth k l2 0)) l2)).
  { rewrite <- (count_perm _ l1 l2 Hp).
    f_equal. apply filter_ext. intro iv. apply fits_base. exact Ht. }
  rewrite Hfit.
  destruct (length l1 <=? 2 * _)%nat; [exact Ht |].
  unfold Reference.middle. rewrite <- Hlen.
  apply sorted_nth_unique; try assumption.
  pose proof (Nat.div_lt (length l1) 2). lia.
Qed.

(** [filteredFirst] is the reference's steps on the result of the
    code's sort. *)
Lemma filteredFirst_result (lo : Q) (intervals : list Q) :
  filteredFirst lo intervals
  = Reference.result Reference.middle
      (Js.sort_asc (filter (Reference.in_range lo) intervals)).
Proof.
  unfold filteredFirst.
  destruct (filter (Reference.in_range lo) intervals) as [| iv ivs];
    [reflexivity |].
  cbv zeta.
  pose proof (sort_asc_length (iv :: ivs)) as Hlen.
  destruct (Js.sort_asc (iv :: ivs)) as [| b bs]; [discriminate Hlen |].
  reflexivity.
Qed.

(** The code and the reference with the element at index
    [floor (n / 2)] for median return the same number. *)
Lemma findDominantPeriod_reference (C : Constants) (intervals : list Q) :
  findDominantPeriod C intervals
  == Reference.dominant_period Reference.middle (MIN_PERIOD_MS C) intervals.
Proof.
  rewrite findDominantPeriod_filteredFirst, filteredFirst_result.
  unfold Reference.dominant_period.
  apply result_middle_unique.
  - apply sort_asc_sorted.
  - apply reference_sort_sorted.
  - apply perm_trans
      with (filter (Reference.in_range (MIN_PERIOD_MS C)) intervals).
    + apply sort_asc_perm.
    + apply Permutation_sym, reference_sort_perm.
Qed.

(* ====================================================================== *)
(** ** Sessions                                                            *)
(* ====================================================================== *)

Lemma State_eqb_eq (a b : State) : State_eqb a b = true <-> a = b.
Proof. destruct a, b; simpl; split; congruence. Qed.

(** A property of states that every call preserves, together with a
    property of the sink calls every call makes, holds along a whole
    run. *)
Lemma run_invariant (C : Constants) (ok : Op -> Prop)
    (P : Tracker -> Prop) (R : Event -> Prop) :
  (forall op s, ok op -> P s ->
     P (fst (step C op s)) /\ Forall R (snd (step C op s))) ->
  forall ops s, Forall ok ops -> P s ->
    P (fst (run C ops s)) /\ Forall R (snd (run C ops s)).
Proof.
  intros Hstep ops. induction ops as [| op ops IH]; intros s Hok Hs.
  - simpl. split; [assumption | constructor].
  - inversion Hok as [| ? ? Hop Hops]; subst.
    destruct (Hstep op s Hop Hs) as [HP1 HR1].
    simpl. destruct (step C op s) as [s1 evs1].
    simpl in HP1, HR1.
    destruct (IH s1 Hops HP1) as [HP2 HR2].
    destruct (run C ops s1) as [s2 evs2].
    simpl in *. split; [assumption |].
    apply Forall_app. split; assumption.
Qed.

(* ====================================================================== *)
(** ** Case analysis of the calls                                          *)
(* ====================================================================== *)

(** The outcomes of the on-grid / off-grid alternative. *)
Lemma gridHit_elim (C : Constants) (P : Tracker -> Prop) (t : Q)
    (s : Tracker) :
  (onGrid C t s = true -> impliedPeriodValid C t s = true ->
   P (adaptGrid C t (nearestBeat t s) (offset t s) (impliedPeriod t s)
        (countHit s))) ->
  (onGrid C t s = true -> impliedPeriodValid C t s = false ->
   P (countHit s)) ->
  (onGrid C t s = false -> P (countMiss s)) ->
  P (gridHit C t s).
Proof.
  intros Hadapt Hhit Hmiss. unfold gridHit.
  destruct (onGrid C t s) eqn:Eg.
  - destruct (impliedPeriodValid C t s) eqn:Ev; auto.
  - auto.
Qed.

(** The outcomes of the tracking phase: the grid is halved, or it is
    not.  The trace record is left abstract. *)
Lemma trackOnset_elim (C : Constants) (P : Tracker * list Event -> Prop)
    (t pb tb : Q) (s : Tracker) :
  (doubleTempoFires C t s = true -> forall r,
   P (halveGrid t (gridHit C t s),
      [EvTrace r; EvUpdate (updateOf C (halveGrid t (gridHit C t s)))])) ->
  (doubleTempoFires C t s = false -> forall r,
   P (gridHit C t s, [EvTrace r; EvUpdate (updateOf C (gridHit C t s))])) ->
  P (trackOnset C t pb tb s).
Proof.
  intros Hfire Hkeep. unfold trackOnset.
  destruct (doubleTempoFires C t s) eqn:Ef.
  - apply Hfire. reflexivity.
  - apply Hkeep. reflexivity.
Qed.

(** The outcomes of [addOnset], by the state the onset meets. *)
Lemma addOnset_elim (C : Constants) (P : Tracker * list Event -> Prop)
    (t : Q) (s0 : Tracker) :
  (state s0 = WAITING -> forall r,
   P (resumeCalibration t (noteOnset t s0),
      [EvTrace r;
       EvUpdate (updateOf C (resumeCalibration t (noteOnset t s0)))])) ->
  (state s0 = CALIBRATING ->
   (length (calOnsets s0 ++ [t]) < CAL_BEATS C + 1)%nat -> forall r,
   P (pushCalOnset t (noteOnset t s0),
      [EvTrace r; EvUpdate (updateOf C (pushCalOnset t (noteOnset t s0)))])) ->
  (state s0 = CALIBRATING ->
   (CAL_BEATS C + 1 <= length (calOnsets s0 ++ [t]))%nat ->
   forall basePeriod r, 0 < basePeriod ->
   basePeriod = findDominantPeriod C (intervalsOf (calOnsets s0 ++ [t])) ->
   P (completeCalibration t basePeriod (pushCalOnset t (noteOnset t s0)),
      [EvTrace r;
       EvUpdate
         (updateOf C
            (completeCalibration t basePeriod
               (pushCalOnset t (noteOnset t s0))))])) ->
  (state s0 = CALIBRATING ->
   (CAL_BEATS C + 1 <= length (calOnsets s0 ++ [t]))%nat ->
   findDominantPeriod C (intervalsOf (calOnsets s0 ++ [t])) <= 0 ->
   P (pushCalOnset t (noteOnset t s0),
      [EvUpdate (updateOf C (pushCalOnset t (noteOnset t s0)))])) ->
  (state s0 = IDLE \/ (state s0 = TRACKING /\ period s0 == 0) ->
   P (noteOnset t s0, [])) ->
  (state s0 = TRACKING -> ~ period s0 == 0 ->
   P (trackOnset C t (period s0) (targetPeriod s0) (noteOnset t s0))) ->
  P (addOnset C t s0).
Proof.
  intros Hwait Hcollect Hdone Hretry Hskip Htrack.
  unfold addOnset.
  change (state (noteOnset t s0)) with (state s0).
  change (period (noteOnset t s0)) with (period s0).
  change (targetPeriod (noteOnset t s0)) with (targetPeriod s0).
  change (calOnsets (pushCalOnset t (noteOnset t s0)))
    with (calOnsets s0 ++ [t]).
  cbv zeta.
  destruct (state s0) eqn:Es; cbn [State_eqb negb orb].
  - apply Hskip. left. reflexivity.
  - destruct (length (calOnsets s0 ++ [t]) <? CAL_BEATS C + 1)%nat eqn:El.
    + apply Nat.ltb_lt in El. apply Hcollect; [reflexivity | exact El].
    + apply Nat.ltb_ge in El.
      destruct (Js.ltb 0 (findDominantPeriod C _)) eqn:Eb.
      * apply ltb_lt in Eb.
        apply Hdone; [reflexivity | exact El | exact Eb | reflexivity].
      * apply ltb_ge in Eb.
        apply Hretry; [reflexivity | exact El | exact Eb].
  - destruct (Js.eqb (period s0) 0) eqn:Ep.
    + apply eqb_eq in Ep. apply Hskip. right. split; [reflexivity | exact Ep].
    + apply Htrack; [reflexivity |].
      intro Hz. apply eqb_eq in Hz. congruence.
  - apply Hwait. reflexivity.
Qed.

(** The outcomes of one firing of the silence timer. *)
Lemma silenceCheck_elim (C : Constants) (P : Tracker * list Event -> Prop)
    (now : Q) (s : Tracker) :
  P (s, []) ->
  (state s = TRACKING \/ state s = CALIBRATING ->
   0 < lastOnsetTime s -> SILENCE_TIMEOUT_MS C < now - lastOnsetTime s ->
   P (enterWaiting C s)) ->
  P (silenceCheck C now s).
Proof.
  intros Hnone Hwait. unfold silenceCheck.
  destruct (State_eqb (state s) IDLE); [exact Hnone |].
  destruct (Js.ltb 0 (lastOnsetTime s)) eqn:E0; [| exact Hnone].
  destruct (Js.ltb (SILENCE_TIMEOUT_MS C) (now - lastOnsetTime s)) eqn:E1;
    [| exact Hnone].
  cbn [andb]. apply ltb_lt in E0, E1.
  destruct (state s) eqn:Es; cbn [State_eqb orb]; try exact Hnone.
  - apply Hwait; auto.
  - apply Hwait; auto.
Qed.

(* ====================================================================== *)
(** ** The tracking phase                                                  *)
(* ====================================================================== *)

(** An onset met while TRACKING with a non-zero period leaves the state
    of the on-grid / off-grid alternative, halved when the double-tempo
    correction fires. *)
Lemma addOnset_tracking (C : Constants) (t : Q) (s : Tracker) :
  state s = TRACKING -> ~ period s == 0 ->
  fst (addOnset C t s)
  = if doubleTempoFires C t (noteOnset t s)
    then halveGrid t (gridHit C t (noteOnset t s))
    else gridHit C t (noteOnset t s).
Proof.
  intros Hst Hnz. apply addOnset_elim; try congruence.
  - intros [Hidle | [_ Hz]]; [congruence | contradiction].
  - intros _ _. apply trackOnset_elim; intros Hf r; rewrite Hf; reflexivity.
Qed.

(** The target period after the on-grid / off-grid alternative: moved
    towards the adapted period on a validated on-grid hit, untouched
    otherwise. *)
Lemma gridHit_targetPeriod (C : Constants) (t : Q) (s : Tracker) :
  targetPeriod (gridHit C t s)
  = if onGrid C t s && impliedPeriodValid C t s
    then targetPeriod s
         + ADAPT_SLOW C * (period (gridHit C t s) - targetPeriod s)
    else targetPeriod s.
Proof.
  unfold gridHit.
  destruct (onGrid C t s); [| reflexivity].
  destruct (impliedPeriodValid C t s); reflexivity.
Qed.

(** With the slow adaptation switched off the alternative leaves the
    target where it was. *)
Lemma gridHit_targetPeriod_fixed (C : Constants) (t : Q) (s : Tracker) :
  ADAPT_SLOW C == 0 -> targetPeriod (gridHit C t s) == targetPeriod s.
Proof.
  intro Hslow. rewrite gridHit_targetPeriod.
  destruct (onGrid C t s && impliedPeriodValid C t s); [| reflexivity].
  rewrite Hslow. ring.
Qed.

(* ====================================================================== *)
(** ** Confidence                                                          *)
(* ====================================================================== *)

Lemma round_percent (c : Q) :
  0 <= c -> c <= 1 -> (0 <= Js.round (c * 100) <= 100)%Z.
Proof.
  intros H0 H1. unfold Js.round. split.
  - apply Z.le_trans with (Qfloor 0); [discriminate |].
    apply Qfloor_resp_le. lra.
  - apply Z.le_trans with (Qfloor (100 + 0.5)); [| discriminate].
    apply Qfloor_resp_le. lra.
Qed.

Lemma updateOf_confidence (C : Constants) (s : Tracker) :
  confidence_bounded s -> update_confidence_bounded (EvUpdate (updateOf C s)).
Proof.
  intros [H0 H1]. simpl. apply round_percent; assumption.
Qed.

Lemma raise_confidence_bounded (c : Q) :
  0 <= c -> 0 <= Js.min 1 (c + 0.05) /\ Js.min 1 (c + 0.05) <= 1.
Proof.
  intro H0. unfold Js.min. split.
  - apply Q.min_glb; lra.
  - apply Q.le_min_l.
Qed.

Lemma lower_confidence_bounded (floor_ drop c : Q) :
  0 <= floor_ -> floor_ <= 1 -> 0 <= drop -> c <= 1 ->
  0 <= Js.max floor_ (c - drop) /\ Js.max floor_ (c - drop) <= 1.
Proof.
  intros Hf0 Hf1 Hd Hc. unfold Js.max. split.
  - apply Qle_trans with floor_; [assumption | apply Q.le_max_l].
  - apply Q.max_lub; lra.
Qed.

(** A call that leaves a bounded confidence and reports it in the one
    [Update] it emits, after at most one trace record. *)
Lemma bounded_then_update (C : Constants) (s : Tracker)
    (before : list Event) :
  confidence_bounded s ->
  Forall update_confidence_bounded before ->
  confidence_bounded (fst (s, before ++ [EvUpdate (updateOf C s)]))
  /\ Forall update_confidence_bounded
       (snd (s, before ++ [EvUpdate (updateOf C s)])).
Proof.
  intros Hs Hb. cbn [fst snd]. split; [exact Hs |].
  apply Forall_app. split; [exact Hb |].
  constructor; [| constructor]. apply updateOf_confidence, Hs.
Qed.

Lemma gridHit_confidence (C : Constants) (t : Q) (s : Tracker) :
  confidence_bounded s -> confidence_bounded (gridHit C t s).
Proof.
  intros [H0 H1]. apply gridHit_elim; intros; unfold confidence_bounded.
  - cbn. apply raise_confidence_bounded; assumption.
  - cbn. split; assumption.
  - cbn. apply lower_confidence_bounded; lra.
Qed.

Lemma halveGrid_confidence (t : Q) (s : Tracker) :
  confidence_bounded s -> confidence_bounded (halveGrid t s).
Proof.
  intros [H0 H1]. unfold halveGrid, confidence_bounded. cbn.
  apply lower_confidence_bounded; lra.
Qed.

Lemma addOnset_confidence (C : Constants) (t : Q) (s : Tracker) :
  confidence_bounded s ->
  confidence_bounded (fst (addOnset C t s))
  /\ Forall update_confidence_bounded (snd (addOnset C t s)).
Proof.
  intros Hs.
  assert (Hhalf : 0 <= 0.5 /\ 0.5 <= 1) by (split; lra).
  apply addOnset_elim; intros.
  - apply (bounded_then_update C _ [EvTrace r]); [exact Hs |].
    constructor; [exact I | constructor].
  - apply (bounded_then_update C _ [EvTrace r]); [exact Hs |].
    constructor; [exact I | constructor].
  - apply (bounded_then_update C _ [EvTrace r]); [exact Hhalf |].
    constructor; [exact I | constructor].
  - apply (bounded_then_update C _ []); [exact Hs | constructor].
  - cbn [fst snd]. split; [exact Hs | constructor].
  - apply trackOnset_elim; intros.
    + apply (bounded_then_update C _ [EvTrace r]).
      * apply halveGrid_confidence, gridHit_confidence. exact Hs.
      * constructor; [exact I | constructor].
    + apply (bounded_then_update C _ [EvTrace r]).
      * apply gridHit_confidence. exact Hs.
      * constructor; [exact I | constructor].
Qed.

Lemma step_confidence (C : Constants) (op : Op) (s : Tracker) :
  confidence_bounded s ->
  confidence_bounded (fst (step C op s))
  /\ Forall update_confidence_bounded (snd (step C op s)).
Proof.
  intros Hs.
  assert (Hzero : 0 <= 0 /\ 0 <= 1) by (split; lra).
  assert (Hset : 0 <= 0.7 /\ 0.7 <= 1) by (split; lra).
  destruct op as [| t | bpm now | | | | now]; cbn [step].
  - apply (bounded_then_update C _ []); [exact Hzero | constructor].
  - apply addOnset_confidence, Hs.
  - apply (bounded_then_update C _ []); [exact Hset | constructor].
  - cbn [fst snd]. split; [exact Hs | constructor].
  - cbn [fst snd]. split; [exact Hs | constructor].
  - cbn [fst snd]. split; [exact Hs | constructor].
  - destruct (silenceCheckInterval s);
      [| cbn [fst snd]; split; [exact Hs | constructor]].
    apply silenceCheck_elim; intros.
    + cbn [fst snd]. split; [exact Hs | constructor].
    + apply (bounded_then_update C _ []); [exact Hzero | constructor].
Qed.

(* ====================================================================== *)
(** ** The period while tracking                                           *)
(* ====================================================================== *)

Lemma adapted_period_positive (a p implied lo : Q) :
  0 <= a -> a <= 1 -> 0 <= lo -> lo < implied -> 0 < p ->
  0 < p + a * (implied - p).
Proof.
  intros Ha0 Ha1 Hlo Himp Hp. nra.
Qed.

Lemma gridHit_state (C : Constants) (t : Q) (s : Tracker) :
  state (gridHit C t s) = state s.
Proof. apply gridHit_elim; intros; reflexivity. Qed.

Lemma gridHit_calOnsets (C : Constants) (t : Q) (s : Tracker) :
  calOnsets (gridHit C t s) = calOnsets s.
Proof. apply gridHit_elim; intros; reflexivity. Qed.

Lemma gridHit_period_positive (C : Constants) (t : Q) (s : Tracker) :
  constants_ok C -> 0 < period s -> 0 < period (gridHit C t s).
Proof.
  intros [Hmin [Ha0 Ha1]] Hp. apply gridHit_elim; intros Hg; try intros Hv.
  - unfold impliedPeriodValid in Hv.
    apply andb_true_iff in Hv. destruct Hv as [Hv _].
    apply andb_true_iff in Hv. destruct Hv as [Hlo _].
    apply ltb_lt in Hlo. cbn.
    apply adapted_period_positive with (lo := MIN_PERIOD_MS C); assumption.
  - exact Hp.
  - exact Hp.
Qed.

Lemma doubleTempoFires_half (C : Constants) (t : Q) (s : Tracker) :
  doubleTempoFires C t s = true ->
  MIN_PERIOD_MS C < period (gridHit C t s) / 2.
Proof.
  unfold doubleTempoFires, halfPeriodValid. intro H.
  apply andb_true_iff in H. destruct H as [_ H]. apply ltb_lt in H. exact H.
Qed.

Lemma positive_tempo_period (bpm : Q) : 0 < bpm -> 0 < 60000 / bpm.
Proof.
  intro H. apply Qlt_shift_div_l; [exact H | lra].
Qed.

Lemma step_tracking_has_period (C : Constants) (op : Op) (s : Tracker) :
  constants_ok C -> op_ok op ->
  tracking_has_period s -> tracking_has_period (fst (step C op s)).
Proof.
  intros HC Hop Hs. unfold tracking_has_period in *.
  destruct op as [| t | bpm now | | | | now]; cbn [step].
  - cbn. discriminate.
  - apply addOnset_elim.
    + intros _ r. cbn. discriminate.
    + intros Hst _ r. cbn. congruence.
    + intros _ _ basePeriod r Hpos _ _. cbn. exact Hpos.
    + intros Hst _ _. cbn. congruence.
    + intros _. cbn. exact Hs.
    + intros Hst _. apply trackOnset_elim; intros Hf r; cbn [fst].
      * intros _. cbn [halveGrid period].
        apply doubleTempoFires_half in Hf. destruct HC as [Hmin _]. lra.
      * intros _.
        apply gridHit_period_positive; [exact HC |]. cbn. apply Hs, Hst.
  - intros _. cbn. apply positive_tempo_period. exact Hop.
  - cbn. exact Hs.
  - cbn. exact Hs.
  - cbn. exact Hs.
  - destruct (silenceCheckInterval s); [| cbn; exact Hs].
    apply silenceCheck_elim.
    + cbn. exact Hs.
    + intros _ _ _. cbn. discriminate.
Qed.

Lemma session_tracking_has_period (C : Constants) (ops : list Op) :
  constants_ok C -> Forall op_ok ops ->
  tracking_has_period (fst (session C ops)).
Proof.
  intros HC Hok.
  destruct (run_invariant C op_ok tracking_has_period (fun _ => True))
    with (ops := ops) (s := createBeatTracker) as [Hs _].
  - intros op s Hop HP. split.
    + apply step_tracking_has_period; assumption.
    + apply Forall_forall. intros; exact I.
  - exact Hok.
  - unfold tracking_has_period. cbn. discriminate.
  - exact Hs.
Qed.

(* ====================================================================== *)
(** ** The calibration buffer                                              *)
(* ====================================================================== *)

Lemma step_calOnsets_by_state (C : Constants) (op : Op) (s : Tracker) :
  calOnsets_by_state C s -> calOnsets_by_state C (fst (step C op s)).
Proof.
  intros [Hidle Htrack]. unfold calOnsets_by_state.
  destruct op as [| t | bpm now | | | | now]; cbn [step].
  - cbn. split; discriminate.
  - apply addOnset_elim.
    + intros _ r. cbn. split; discriminate.
    + intros Hst _ r. cbn. split; congruence.
    + intros _ Hlen basePeriod r _ _. cbn.
      split; [discriminate | intros _; exact Hlen].
    + intros Hst _ _. cbn. split; congruence.
    + intros _. cbn. split; assumption.
    + intros Hst _. apply trackOnset_elim; intros Hf r; cbn [fst].
      * cbn [halveGrid state calOnsets].
        rewrite gridHit_state, gridHit_calOnsets. cbn.
        split; [congruence | exact Htrack].
      * rewrite gridHit_state, gridHit_calOnsets. cbn.
        split; [congruence | exact Htrack].
  - cbn. split; [discriminate |]. intros _. rewrite repeat_length. lia.
  - cbn. split; assumption.
  - cbn. split; assumption.
  - cbn. split; assumption.
  - destruct (silenceCheckInterval s); [| cbn; split; assumption].
    apply silenceCheck_elim.
    + cbn. split; assumption.
    + intros _ _ _. cbn. split; discriminate.
Qed.

Lemma session_calOnsets_by_state (C : Constants) (ops : list Op) :
  calOnsets_by_state C (fst (session C ops)).
Proof.
  destruct (run_invariant C (fun _ => True) (calOnsets_by_state C)
              (fun _ => True))
    with (ops := ops) (s := createBeatTracker) as [Hs _].
  - intros op s _ HP. split.
    + apply step_calOnsets_by_state; assumption.
    + apply Forall_forall. intros; exact I.
  - apply Forall_forall. intros; exact I.
  - split; [reflexivity | cbn; discriminate].
  - exact Hs.
Qed.

(* ====================================================================== *)
(** ** What an [Update] reports                                            *)
(* ====================================================================== *)

Lemma updateOf_null_tempo (C : Constants) (s : Tracker) :
  update_null_tempo (updateOf C s).
Proof.
  unfold update_null_tempo, updateOf.
  cbn [u_period u_targetPeriod u_currentBpm u_targetBpm u_drift].
  assert (Hzero : Js.round_to 10 0 == 0) by reflexivity.
  split; [| split].
  - intro Hp.
    assert (E : Js.ltb 0 (period s) = false) by (apply ltb_ge; lra).
    rewrite E. reflexivity.
  - intro Hp.
    assert (E : Js.ltb 0 (targetPeriod s) = false) by (apply ltb_ge; lra).
    rewrite E. reflexivity.
  - intros [Hnull | Hnull].
    + destruct (Js.truthy (if Js.ltb 0 (period s) then _ else _));
        [discriminate | exact Hzero].
    + destruct (Js.truthy (if Js.ltb 0 (targetPeriod s) then _ else _));
        [discriminate |].
      rewrite andb_false_r. exact Hzero.
Qed.

(** Every [Update] a call emits is the snapshot of some tracker state. *)
Lemma step_emits_snapshots (C : Constants) (op : Op) (s : Tracker) :
  Forall (is_snapshot C) (snd (step C op s)).
Proof.
  assert (Hone : forall s', Forall (is_snapshot C) [EvUpdate (updateOf C s')]).
  { intro s'. constructor; [exists s'; reflexivity | constructor]. }
  assert (Htwo : forall r s',
             Forall (is_snapshot C) [EvTrace r; EvUpdate (updateOf C s')]).
  { intros r s'. constructor; [exact I | apply Hone]. }
  destruct op as [| t | bpm now | | | | now]; cbn [step].
  - apply Hone.
  - apply addOnset_elim; intros; cbn [snd];
      first [apply Htwo | apply Hone | constructor].
  - apply Hone.
  - constructor.
  - constructor.
  - constructor.
  - destruct (silenceCheckInterval s); [| constructor].
    apply silenceCheck_elim; intros; [constructor | apply Hone].
Qed.

Lemma session_emits_snapshots (C : Constants) (ops : list Op) :
  Forall (is_snapshot C) (snd (session C ops)).
Proof.
  destruct (run_invariant C (fun _ => True) (fun _ => True) (is_snapshot C))
    with (ops := ops) (s := createBeatTracker) as [_ Hevs].
  - intros op s _ _. split; [exact I | apply step_emits_snapshots].
  - apply Forall_forall. intros; exact I.
  - exact I.
  - exact Hevs.
Qed.

(* ====================================================================== *)
(** ** The claims                                                          *)
(* ====================================================================== *)

(** C1 (the code departs from the claim).  After the calibration at
    120 BPM, the tracker is TRACKING with [targetPeriod] 500; an onset
    520 ms after the last one is on the grid and does not trigger the
    double-tempo correction, and yet [targetPeriod] is 500.008 after it:
    the slow adaptation of the on-grid branch moved the target. *)
Theorem on_grid_onset_moves_target :
  state calibrated = TRACKING
  /\ onGrid CONSTANTS 4520 calibrated = true
  /\ doubleTempoFires CONSTANTS 4520 calibrated = false
  /\ targetPeriod calibrated == 500
  /\ targetPeriod (fst (addOnset CONSTANTS 4520 calibrated)) == 500.008
  /\ ~ targetPeriod (fst (addOnset CONSTANTS 4520 calibrated))
       == targetPeriod calibrated.
Proof.
  vm_compute. repeat split; try reflexivity. discriminate.
Qed.

(** C2 (as stated, refuted).  [setTarget(-120)] on a fresh tracker is
    not rejected: the tracker is changed, it is TRACKING with a period of
    -500 ms, and an [Update] is emitted as for any other tempo. *)
Lemma setTarget_accepts_negative_tempo :
  -120 <= 0
  /\ fst (setTarget CONSTANTS (-120) 0 createBeatTracker) <> createBeatTracker
  /\ state (fst (setTarget CONSTANTS (-120) 0 createBeatTracker)) = TRACKING
  /\ period (fst (setTarget CONSTANTS (-120) 0 createBeatTracker)) == -500
  /\ length (snd (setTarget CONSTANTS (-120) 0 createBeatTracker)) = 1%nat.
Proof.
  split; [lra |]. split; [| vm_compute; repeat split; reflexivity].
  intro H. apply (f_equal state) in H. discriminate H.
Qed.

(** C2 (amended).  [setTarget(bpm)] validates nothing: for every finite
    non-zero [bpm], positive or negative, it sets [period] and
    [targetPeriod] to [60000 / bpm], [phase] to the current time,
    [confidence] to 0.7, [state] to TRACKING, fills [calOnsets] with
    [CAL_BEATS + 1] zeros and emits one [Update] of the new state; a
    negative [bpm] leaves a negative period. *)
Theorem setTarget_sets_tempo (C : Constants) (bpm now : Q) (s : Tracker) :
  ~ bpm == 0 ->
  period (fst (setTarget C bpm now s)) = 60000 / bpm
  /\ targetPeriod (fst (setTarget C bpm now s)) = 60000 / bpm
  /\ phase (fst (setTarget C bpm now s)) = now
  /\ confidence (fst (setTarget C bpm now s)) = 0.7
  /\ state (fst (setTarget C bpm now s)) = TRACKING
  /\ calOnsets (fst (setTarget C bpm now s)) = repeat 0 (CAL_BEATS C + 1)
  /\ snd (setTarget C bpm now s)
     = [EvUpdate (updateOf C (fst (setTarget C bpm now s)))]
  /\ (0 < bpm -> 0 < period (fst (setTarget C bpm now s)))
  /\ (bpm < 0 -> period (fst (setTarget C bpm now s)) < 0).
Proof.
  intro Hnz. cbn [setTarget fst snd period targetPeriod phase confidence
                  state calOnsets emitUpdate].
  repeat (split; [reflexivity |]). split.
  - apply positive_tempo_period.
  - intro Hneg.
    assert (Hpos : 0 < 60000 / - bpm) by (apply positive_tempo_period; lra).
    assert (E : 60000 / - bpm == - (60000 / bpm)) by (field; exact Hnz).
    lra.
Qed.

Lemma setTarget_sets_tempo_witness :
  ~ -120 == 0
  /\ period (fst (setTarget CONSTANTS (-120) 0 createBeatTracker))
     = 60000 / -120
  /\ state (fst (setTarget CONSTANTS (-120) 0 createBeatTracker)) = TRACKING.
Proof.
  assert (Hnz : ~ -120 == 0) by (intro H; discriminate H).
  split; [exact Hnz |].
  pose proof (setTarget_sets_tempo CONSTANTS (-120) 0 createBeatTracker Hnz)
    as [Hp [_ [_ [_ [Hst _]]]]].
  split; [exact Hp | exact Hst].
Defined.

(** C3 (as stated, refuted).  The claim read with the ordinary median
    (the mean of the two middle elements of an even number of them) does
    not hold: on the intervals 400, 600 the code takes [candidates[1]],
    that is 600, as trial base, the interval 600 fits it, one fit of two
    is enough, and 600 is returned; the reference has the trial base
    500, which neither interval fits, and falls back to the median 500.
    The input is clear of the tolerance, so that the doubles of the
    code decide as the rationals do. *)
Lemma estimator_takes_upper_middle :
  toleranceClear (MIN_PERIOD_MS CONSTANTS) [400; 600] = true
  /\ findDominantPeriod CONSTANTS [400; 600] = 600
  /\ Reference.dominant_period Reference.median
       (MIN_PERIOD_MS CONSTANTS) [400; 600] == 500
  /\ ~ findDominantPeriod CONSTANTS [400; 600]
       == Reference.dominant_period Reference.median
            (MIN_PERIOD_MS CONSTANTS) [400; 600].
Proof.
  split; [vm_compute; reflexivity |].
  split; [vm_compute; reflexivity |].
  split; [vm_compute; reflexivity |].
  intro H. vm_compute in H. discriminate H.
Qed.

(** C3 (amended).  With the word median read as the element at index
    [floor (n / 2)] of the ascending list (the upper of the two middle
    elements of an even number), [findDominantPeriod] returns the
    number that the reference algorithm returns, whatever
    [MIN_PERIOD_MS] is, on every list of intervals that is clear of the
    tolerance; on the intervals 500, 500, 500, 1000, 500, 500 it
    returns 500.  The hypothesis keeps the statement to the inputs on
    which the comparison with 0.15 has the same outcome on the doubles
    of the code as on the rationals of this development; the proof has
    no use for it. *)
Theorem findDominantPeriod_matches_reference :
  (forall (C : Constants) (intervals : list Q),
     toleranceClear (MIN_PERIOD_MS C) intervals = true ->
     findDominantPeriod C intervals
     == Reference.dominant_period Reference.middle
          (MIN_PERIOD_MS C) intervals)
  /\ findDominantPeriod CONSTANTS [500; 500; 500; 1000; 500; 500] = 500.
Proof.
  split.
  - intros C intervals _. apply findDominantPeriod_reference.
  - vm_compute. reflexivity.
Qed.

Lemma findDominantPeriod_matches_reference_witness :
  toleranceClear (MIN_PERIOD_MS CONSTANTS) [500; 500; 500; 1000; 500; 500]
  = true
  /\ findDominantPeriod CONSTANTS [500; 500; 500; 1000; 500; 500]
     == Reference.dominant_period Reference.middle
          (MIN_PERIOD_MS CONSTANTS) [500; 500; 500; 1000; 500; 500].
Proof.
  split; [vm_compute; reflexivity |].
  apply (proj1 findDominantPeriod_matches_reference CONSTANTS).
  vm_compute. reflexivity.
Defined.

(** C4.  Along every session of [reset], [addOnset] with any timestamps,
    [setTarget] with a positive tempo, and firings of the silence timer
    (with [startSilenceWatch], [stopSilenceWatch] and [destroy] in
    between), the confidence of the tracker is within [0, 1] at every
    point, that is after every prefix [pre] of the session, and every
    [Update] handed to [onUpdate] during the session reports a
    confidence within [0, 100]. *)
Theorem confidence_within_bounds (C : Constants) (pre post : list Op) :
  Forall op_ok (pre ++ post) ->
  (0 <= confidence (fst (session C pre))
   /\ confidence (fst (session C pre)) <= 1)
  /\ (forall u, In (EvUpdate u) (snd (session C (pre ++ post))) ->
      (0 <= u_confidence u <= 100)%Z).
Proof.
  intro Hok.
  assert (Hstart : confidence_bounded createBeatTracker)
    by (split; cbn; lra).
  assert (Hstep : forall op s, op_ok op -> confidence_bounded s ->
            confidence_bounded (fst (step C op s))
            /\ Forall update_confidence_bounded (snd (step C op s))).
  { intros op s _ HP. apply step_confidence, HP. }
  split.
  - apply Forall_app in Hok. destruct Hok as [Hpre _].
    exact (proj1 (run_invariant C op_ok confidence_bounded
                    update_confidence_bounded Hstep pre createBeatTracker
                    Hpre Hstart)).
  - pose proof (proj2 (run_invariant C op_ok confidence_bounded
                         update_confidence_bounded Hstep (pre ++ post)
                         createBeatTracker Hok Hstart)) as Hevs.
    intros u Hin. rewrite Forall_forall in Hevs.
    exact (Hevs (EvUpdate u) Hin).
Qed.

Lemma confidence_within_bounds_witness :
  Forall op_ok (calibrated_ops ++ [OpSetTarget 120 4000; OpAddOnset 4520])
  /\ 0 <= confidence (fst (session CONSTANTS calibrated_ops))
  /\ confidence (fst (session CONSTANTS calibrated_ops)) <= 1.
Proof.
  assert (Hok : Forall op_ok
                  (calibrated_ops ++ [OpSetTarget 120 4000; OpAddOnset 4520])).
  { unfold calibrated_ops. cbn [onsetsEvery app].
    repeat (apply Forall_cons; [first [exact I | reflexivity] |]).
    apply Forall_nil. }
  split; [exact Hok |].
  exact (proj1 (confidence_within_bounds CONSTANTS calibrated_ops
                  [OpSetTarget 120 4000; OpAddOnset 4520] Hok)).
Defined.

(** C5 (the code departs from the claim).  In the state reached after
    the calibration, one late onset and six half-beat onsets, the
    tracker is TRACKING with [period] 501.6 and [targetPeriod] 500.008.
    The onset at 7787 ms has an offset inside (0.35, 0.65), leaves 7
    misses for 1 hit, and the halved period 250.8 is above
    [MIN_PERIOD_MS]: the correction fires.  It halves [period] and every
    entry of [recentPeriods], sets [phase] to the onset, zeroes both
    counters and clamps the confidence at 0.3, but it sets [targetPeriod]
    to the halved period 250.8 and not to half the target, 250.004. *)
Theorem double_tempo_overwrites_target :
  state drifted = TRACKING
  /\ 0.35 < absOffset 7787 drifted /\ absOffset 7787 drifted < 0.65
  /\ (gridMisses (gridHit CONSTANTS 7787 drifted) = 7)%Z
  /\ (gridHits (gridHit CONSTANTS 7787 drifted) = 1)%Z
  /\ MIN_PERIOD_MS CONSTANTS < period (gridHit CONSTANTS 7787 drifted) / 2
  /\ doubleTempoFires CONSTANTS 7787 drifted = true
  /\ period drifted == 501.6
  /\ targetPeriod drifted == 500.008
  /\ period (fst (addOnset CONSTANTS 7787 drifted)) == 250.8
  /\ map Qred (recentPeriods (fst (addOnset CONSTANTS 7787 drifted)))
     = map Qred (map (fun p => p / 2) (recentPeriods drifted))
  /\ phase (fst (addOnset CONSTANTS 7787 drifted)) == 7787
  /\ (gridHits (fst (addOnset CONSTANTS 7787 drifted)) = 0)%Z
  /\ (gridMisses (fst (addOnset CONSTANTS 7787 drifted)) = 0)%Z
  /\ confidence (fst (addOnset CONSTANTS 7787 drifted)) == 0.3
  /\ targetPeriod (fst (addOnset CONSTANTS 7787 drifted)) == 250.8
  /\ ~ targetPeriod (fst (addOnset CONSTANTS 7787 drifted))
       == targetPeriod drifted / 2.
Proof.
  vm_compute. repeat split; try reflexivity. discriminate.
Qed.

(** C6 (as stated, refuted).  After a completed calibration at 120 BPM
    and a silence, the tracker is WAITING with [period] and
    [targetPeriod] 500.  The next onset moves it to CALIBRATING with
    [calOnsets] holding that onset alone, but [period] and [targetPeriod]
    are still 500, and the [Update] it emits still reports 120 BPM. *)
Lemma waiting_onset_keeps_period :
  state silenced = WAITING
  /\ state (fst (addOnset CONSTANTS 10000 silenced)) = CALIBRATING
  /\ calOnsets (fst (addOnset CONSTANTS 10000 silenced)) = [10000]
  /\ period (fst (addOnset CONSTANTS 10000 silenced)) == 500
  /\ targetPeriod (fst (addOnset CONSTANTS 10000 silenced)) == 500
  /\ ~ period (fst (addOnset CONSTANTS 10000 silenced)) == 0
  /\ ~ targetPeriod (fst (addOnset CONSTANTS 10000 silenced)) == 0
  /\ (exists r u,
        snd (addOnset CONSTANTS 10000 silenced) = [EvTrace r; EvUpdate u]
        /\ u_currentBpm u = Some (Js.round_to 10 (60000 / 500))).
Proof.
  vm_compute. repeat split; try reflexivity; try discriminate.
  eexists. eexists. split; reflexivity.
Qed.

(** C6 (amended).  An onset that arrives while WAITING moves the tracker
    to CALIBRATING with [calOnsets] holding that onset alone, records
    the onset ([lastOnsetTime], [onsetCount]), emits one trace record
    and one [Update], and leaves [period] and [targetPeriod] as they
    were.  They keep those values through the calibration: an onset
    that arrives while CALIBRATING either leaves the tracker CALIBRATING
    with both unchanged, or completes the calibration, which sets both
    to the positive period the estimator returned. *)
Theorem waiting_onset_restarts_calibration (C : Constants) :
  (forall (t : Q) (s : Tracker),
     state s = WAITING ->
     state (fst (addOnset C t s)) = CALIBRATING
     /\ calOnsets (fst (addOnset C t s)) = [t]
     /\ lastOnsetTime (fst (addOnset C t s)) = t
     /\ onsetCount (fst (addOnset C t s)) = (onsetCount s + 1)%Z
     /\ period (fst (addOnset C t s)) = period s
     /\ targetPeriod (fst (addOnset C t s)) = targetPeriod s
     /\ exists r,
          snd (addOnset C t s)
          = [EvTrace r; EvUpdate (updateOf C (fst (addOnset C t s)))])
  /\ (forall (t : Q) (s : Tracker),
        state s = CALIBRATING ->
        (state (fst (addOnset C t s)) = CALIBRATING
         /\ period (fst (addOnset C t s)) = period s
         /\ targetPeriod (fst (addOnset C t s)) = targetPeriod s)
        \/ (state (fst (addOnset C t s)) = TRACKING
            /\ period (fst (addOnset C t s))
               = findDominantPeriod C (intervalsOf (calOnsets s ++ [t]))
            /\ targetPeriod (fst (addOnset C t s))
               = period (fst (addOnset C t s))
            /\ 0 < period (fst (addOnset C t s)))).
Proof.
  split; intros t s Hst.
  - unfold addOnset.
    change (state (noteOnset t s)) with (state s). rewrite Hst.
    cbn [State_eqb]. cbv zeta. cbn [fst snd].
    repeat (split; [reflexivity |]). eexists. reflexivity.
  - apply addOnset_elim; try congruence.
    + intros _ _ r. left. cbn. auto.
    + intros _ _ basePeriod r Hpos Hbase. right. cbn.
      split; [reflexivity |]. split; [exact Hbase |].
      split; [reflexivity | exact Hpos].
    + intros _ _ _. left. cbn. auto.
    + intros [Hidle | [Htr _]]; congruence.
Qed.

Lemma waiting_onset_restarts_calibration_witness :
  state silenced = WAITING
  /\ state (fst (addOnset CONSTANTS 10000 silenced)) = CALIBRATING
  /\ period (fst (addOnset CONSTANTS 10000 silenced)) = period silenced.
Proof.
  assert (Hst : state silenced = WAITING) by (vm_compute; reflexivity).
  split; [exact Hst |].
  destruct (waiting_onset_restarts_calibration CONSTANTS) as [Hwait _].
  destruct (Hwait 10000 silenced Hst) as [H1 [_ [_ [_ [H5 _]]]]].
  split; [exact H1 | exact H5].
Defined.

(** C7 (as stated, refuted).  With the silence timer installed, [reset],
    one onset at 1000 ms and a timer firing at 6000 ms leave the tracker
    WAITING with [period] 0: the timer forces WAITING from CALIBRATING
    too, before any period was estimated. *)
Lemma waiting_with_zero_period :
  Forall op_ok silent_calibration_ops
  /\ state (fst (session CONSTANTS silent_calibration_ops)) = WAITING
  /\ period (fst (session CONSTANTS silent_calibration_ops)) == 0.
Proof.
  split.
  - unfold silent_calibration_ops.
    repeat (apply Forall_cons; [exact I |]). apply Forall_nil.
  - vm_compute. split; reflexivity.
Qed.

(** C7 (amended).  In every state a session reaches (calls of [reset],
    [addOnset], [setTarget] with a positive tempo, the silence-watch
    calls and firings of the silence timer), for constants with a
    non-negative [MIN_PERIOD_MS] and an [ADAPT_FAST] within [0, 1]:
    [period == 0] implies that the state is IDLE, CALIBRATING or WAITING;
    the tracker is never TRACKING with [period == 0]. *)
Theorem zero_period_never_tracking (C : Constants) (ops : list Op) :
  constants_ok C ->
  Forall op_ok ops ->
  period (fst (session C ops)) == 0 ->
  (state (fst (session C ops)) = IDLE
   \/ state (fst (session C ops)) = CALIBRATING
   \/ state (fst (session C ops)) = WAITING)
  /\ state (fst (session C ops)) <> TRACKING.
Proof.
  intros HC Hok Hzero.
  pose proof (session_tracking_has_period C ops HC Hok) as Hinv.
  unfold tracking_has_period in Hinv.
  destruct (state (fst (session C ops))) eqn:Es.
  - split; [auto | discriminate].
  - split; [auto | discriminate].
  - exfalso. specialize (Hinv eq_refl). lra.
  - split; [auto | discriminate].
Qed.

Lemma zero_period_never_tracking_witness :
  constants_ok CONSTANTS
  /\ Forall op_ok silent_calibration_ops
  /\ period (fst (session CONSTANTS silent_calibration_ops)) == 0
  /\ state (fst (session CONSTANTS silent_calibration_ops)) <> TRACKING.
Proof.
  assert (HC : constants_ok CONSTANTS).
  { unfold constants_ok. cbn. repeat split; lra. }
  assert (Hok : Forall op_ok silent_calibration_ops).
  { unfold silent_calibration_ops.
    repeat (apply Forall_cons; [exact I |]). apply Forall_nil. }
  assert (Hzero : period (fst (session CONSTANTS silent_calibration_ops)) == 0)
    by (vm_compute; reflexivity).
  split; [exact HC |]. split; [exact Hok |]. split; [exact Hzero |].
  exact (proj2 (zero_period_never_tracking CONSTANTS silent_calibration_ops
                  HC Hok Hzero)).
Defined.

(** C8 (as stated, refuted).  After [reset] and nine onsets 500 ms
    apart the calibration is complete and the tracker is TRACKING, and
    [calOnsets] still holds the nine onsets. *)
Lemma calOnsets_kept_after_calibration :
  Forall op_ok calibrated_ops
  /\ state (fst (session CONSTANTS calibrated_ops)) = TRACKING
  /\ calOnsets (fst (session CONSTANTS calibrated_ops)) <> []
  /\ length (calOnsets (fst (session CONSTANTS calibrated_ops))) = 9%nat.
Proof.
  split.
  - unfold calibrated_ops. cbn [onsetsEvery].
    repeat (apply Forall_cons; [exact I |]). apply Forall_nil.
  - vm_compute. repeat split; try reflexivity. discriminate.
Qed.

(** C8 (amended).  In every state a session reaches: while the state is
    IDLE, [calOnsets] is empty; while the state is TRACKING, [calOnsets]
    is not empty, it holds at least [CAL_BEATS + 1] entries (the onsets
    of the completed calibration, which are kept, or the zeros
    [setTarget] writes).  Nothing is claimed of WAITING, where the
    buffer is whatever it was when the silence began. *)
Theorem calOnsets_per_state (C : Constants) (ops : list Op) :
  Forall op_ok ops ->
  (state (fst (session C ops)) = IDLE ->
   calOnsets (fst (session C ops)) = [])
  /\ (state (fst (session C ops)) = TRACKING ->
      (CAL_BEATS C + 1 <= length (calOnsets (fst (session C ops))))%nat
      /\ calOnsets (fst (session C ops)) <> []).
Proof.
  intros _.
  destruct (session_calOnsets_by_state C ops) as [Hidle Htrack].
  split; [exact Hidle |].
  intro Hst. specialize (Htrack Hst). split; [exact Htrack |].
  intro Hnil. rewrite Hnil in Htrack. cbn in Htrack. lia.
Qed.

Lemma calOnsets_per_state_witness :
  Forall op_ok calibrated_ops
  /\ state (fst (session CONSTANTS calibrated_ops)) = TRACKING
  /\ (CAL_BEATS CONSTANTS + 1
      <= length (calOnsets (fst (session CONSTANTS calibrated_ops))))%nat.
Proof.
  assert (Hok : Forall op_ok calibrated_ops).
  { unfold calibrated_ops. cbn [onsetsEvery].
    repeat (apply Forall_cons; [exact I |]). apply Forall_nil. }
  assert (Hst : state (fst (session CONSTANTS calibrated_ops)) = TRACKING)
    by (vm_compute; reflexivity).
  split; [exact Hok |]. split; [exact Hst |].
  exact (proj1 (proj2 (calOnsets_per_state CONSTANTS calibrated_ops Hok) Hst)).
Defined.

(** C9.  [addOnset(t)] while IDLE sets [lastOnsetTime] to [t] and adds
    one to [onsetCount]; it calls neither [onUpdate] nor [traceOnset],
    and every other variable of the tracker keeps its value. *)
Theorem idle_onset_only_counted (C : Constants) (t : Q) (s : Tracker) :
  state s = IDLE ->
  lastOnsetTime (fst (addOnset C t s)) = t
  /\ onsetCount (fst (addOnset C t s)) = (onsetCount s + 1)%Z
  /\ snd (addOnset C t s) = []
  /\ state (fst (addOnset C t s)) = state s
  /\ period (fst (addOnset C t s)) = period s
  /\ targetPeriod (fst (addOnset C t s)) = targetPeriod s
  /\ phase (fst (addOnset C t s)) = phase s
  /\ confidence (fst (addOnset C t s)) = confidence s
  /\ calOnsets (fst (addOnset C t s)) = calOnsets s
  /\ gridHits (fst (addOnset C t s)) = gridHits s
  /\ gridMisses (fst (addOnset C t s)) = gridMisses s
  /\ recentPeriods (fst (addOnset C t s)) = recentPeriods s
  /\ silenceCheckInterval (fst (addOnset C t s)) = silenceCheckInterval s.
Proof.
  intro Hst. unfold addOnset.
  change (state (noteOnset t s)) with (state s). rewrite Hst.
  cbn [State_eqb negb orb]. cbv zeta. cbn [fst snd noteOnset].
  cbn [lastOnsetTime onsetCount state period targetPeriod phase confidence
       calOnsets gridHits gridMisses recentPeriods silenceCheckInterval].
  repeat split; auto.
Qed.

Lemma idle_onset_only_counted_witness :
  state createBeatTracker = IDLE
  /\ lastOnsetTime (fst (addOnset CONSTANTS 1000 createBeatTracker)) = 1000
  /\ snd (addOnset CONSTANTS 1000 createBeatTracker) = [].
Proof.
  assert (Hst : state createBeatTracker = IDLE) by reflexivity.
  split; [exact Hst |].
  destruct (idle_onset_only_counted CONSTANTS 1000 createBeatTracker Hst)
    as [H1 [_ [H3 _]]].
  split; [exact H1 | exact H3].
Defined.

(** C10.  Every [Update] emitted in a session with [period == 0] has a
    null [currentBpm], every one emitted with [targetPeriod == 0] has a
    null [targetBpm], and whenever one of the two is null the [drift] of
    the [Update] is the number 0, not null. *)
Theorem null_tempo_reports_zero_drift (C : Constants) (ops : list Op)
    (u : Update) :
  In (EvUpdate u) (snd (session C ops)) ->
  (u_period u == 0 -> u_currentBpm u = None)
  /\ (u_targetPeriod u == 0 -> u_targetBpm u = None)
  /\ (u_currentBpm u = None \/ u_targetBpm u = None -> u_drift u == 0).
Proof.
  intro Hin.
  pose proof (session_emits_snapshots C ops) as Hsnap.
  rewrite Forall_forall in Hsnap. specialize (Hsnap _ Hin).
  destruct Hsnap as [s ->].
  exact (updateOf_null_tempo C s).
Qed.

Lemma null_tempo_reports_zero_drift_witness :
  In (EvUpdate (updateOf CONSTANTS (fst (reset CONSTANTS createBeatTracker))))
    (snd (session CONSTANTS [OpReset]))
  /\ u_currentBpm (updateOf CONSTANTS (fst (reset CONSTANTS createBeatTracker)))
     = None
  /\ u_drift (updateOf CONSTANTS (fst (reset CONSTANTS createBeatTracker)))
     == 0.
Proof.
  assert (Hin : In (EvUpdate
                      (updateOf CONSTANTS
                         (fst (reset CONSTANTS createBeatTracker))))
                  (snd (session CONSTANTS [OpReset])))
    by (left; reflexivity).
  split; [exact Hin |].
  destruct (null_tempo_reports_zero_drift CONSTANTS [OpReset] _ Hin)
    as [Hcur [_ Hdrift]].
  assert (Hnull : u_currentBpm
                    (updateOf CONSTANTS
                       (fst (reset CONSTANTS createBeatTracker))) = None)
    by (apply Hcur; reflexivity).
  split; [exact Hnull |].
  apply Hdrift. left. exact Hnull.
Defined.

(* ====================================================================== *)
(** ** Further properties: the estimator                                   *)
(* ====================================================================== *)

Lemma insert_asc_In (x a : Q) (xs : list Q) :
  In x (Js.insert_asc a xs) <-> x = a \/ In x xs.
Proof.
  induction xs as [| b xs IH]; simpl.
  - split; intros [H | H]; auto.
  - destruct (Qle_bool a b); simpl.
    + split; intros [H | H]; auto.
    + rewrite IH. split; intros [H | [H | H]]; auto.
Qed.

Lemma sort_asc_In (x : Q) (xs : list Q) : In x (Js.sort_asc xs) <-> In x xs.
Proof.
  induction xs as [| a xs IH]; simpl; [reflexivity |].
  rewrite insert_asc_In, IH. split; intros [H | H]; auto.
Qed.

Lemma in_range_iff (lo iv : Q) :
  Reference.in_range lo iv = true <-> lo < iv /\ iv < 2000.
Proof.
  unfold Reference.in_range. rewrite andb_true_iff, !ltb_lt. reflexivity.
Qed.

(** The middle element of a non-empty list is one of its elements. *)
Lemma middle_In (xs : list Q) : xs <> [] -> In (Reference.middle xs) xs.
Proof.
  intro Hne. unfold Reference.middle. apply nth_In.
  destruct xs as [| x xs]; [congruence |].
  apply Nat.div_lt; cbn [length]; lia.
Qed.

Lemma lower_sixty_positive (n : nat) : (1 <= Reference.lower_sixty n)%nat.
Proof. unfold Reference.lower_sixty. lia. Qed.

(** The result is the number 0, when no interval is valid, or a valid
    interval of the input. *)
Lemma findDominantPeriod_zero_or_valid (C : Constants) (intervals : list Q) :
  (filter (Reference.in_range (MIN_PERIOD_MS C)) intervals = []
   /\ findDominantPeriod C intervals = 0)
  \/ (filter (Reference.in_range (MIN_PERIOD_MS C)) intervals <> []
      /\ In (findDominantPeriod C intervals) intervals
      /\ MIN_PERIOD_MS C < findDominantPeriod C intervals
      /\ findDominantPeriod C intervals < 2000).
Proof.
  rewrite findDominantPeriod_filteredFirst. unfold filteredFirst.
  set (p := Reference.in_range (MIN_PERIOD_MS C)).
  assert (Hvalid : forall x, In x (Js.sort_asc (filter p intervals)) ->
            In x intervals /\ MIN_PERIOD_MS C < x /\ x < 2000).
  { intros x Hx. apply (proj1 (sort_asc_In _ _)) in Hx.
    apply (proj1 (filter_In _ _ _)) in Hx.
    destruct Hx as [Hx Hp]. apply in_range_iff in Hp. auto. }
  destruct (filter p intervals) as [| iv ivs] eqn:Ef.
  - left. split; reflexivity.
  - right. split; [discriminate |].
    set (valid := Js.sort_asc (iv :: ivs)) in *.
    assert (Hne : valid <> []).
    { intro Hnil. apply (f_equal (@length Q)) in Hnil.
      unfold valid in Hnil. rewrite sort_asc_length in Hnil.
      discriminate Hnil. }
    cbv zeta.
    destruct (length valid <=? _)%nat.
    + apply Hvalid.
      set (k := Reference.lower_sixty (length valid)).
      assert (Hk : (1 <= k)%nat) by apply lower_sixty_positive.
      assert (Hcand : firstn k valid <> []).
      { destruct valid as [| v vs]; [congruence |].
        destruct k as [| k']; [lia |]. cbn. discriminate. }
      pose proof (middle_In _ Hcand) as Hm.
      rewrite <- (firstn_skipn k valid) at 2.
      apply in_or_app. left. exact Hm.
    + apply Hvalid. apply middle_In. exact Hne.
Qed.

(** X1.  [findDominantPeriod] never invents a period: when no interval
    lies strictly between [MIN_PERIOD_MS] and 2000 it returns the number
    0 (the empty list included); when one does, it returns one of the
    intervals it was given, and that interval lies strictly between
    [MIN_PERIOD_MS] and 2000. *)
Theorem findDominantPeriod_picks_valid_interval (C : Constants)
    (intervals : list Q) :
  ((forall iv, In iv intervals -> ~ (MIN_PERIOD_MS C < iv /\ iv < 2000)) ->
   findDominantPeriod C intervals = 0)
  /\ ((exists iv, In iv intervals /\ MIN_PERIOD_MS C < iv /\ iv < 2000) ->
      In (findDominantPeriod C intervals) intervals
      /\ MIN_PERIOD_MS C < findDominantPeriod C intervals
      /\ findDominantPeriod C intervals < 2000).
Proof.
  destruct (findDominantPeriod_zero_or_valid C intervals)
    as [[Hf Hz] | [Hf Hv]].
  - split; [intros _; exact Hz |].
    intros [iv [Hin Hr]]. exfalso.
    assert (Hin' : In iv (filter (Reference.in_range (MIN_PERIOD_MS C))
                            intervals)).
    { apply filter_In. split; [exact Hin | apply in_range_iff, Hr]. }
    rewrite Hf in Hin'. exact Hin'.
  - split; [| intros _; exact Hv].
    intro Hnone. exfalso.
    destruct (filter (Reference.in_range (MIN_PERIOD_MS C)) intervals)
      as [| iv ivs] eqn:Ef; [congruence |].
    assert (Hin : In iv (filter (Reference.in_range (MIN_PERIOD_MS C))
                           intervals)) by (rewrite Ef; left; reflexivity).
    apply (proj1 (filter_In _ _ _)) in Hin. destruct Hin as [Hin Hr].
    apply in_range_iff in Hr. exact (Hnone iv Hin Hr).
Qed.

Lemma findDominantPeriod_picks_valid_interval_witness :
  (exists iv, In iv [500; 500; 500; 1000; 500; 500]
              /\ MIN_PERIOD_MS CONSTANTS < iv /\ iv < 2000)
  /\ In (findDominantPeriod CONSTANTS [500; 500; 500; 1000; 500; 500])
       [500; 500; 500; 1000; 500; 500].
Proof.
  assert (Hex : exists iv, In iv [500; 500; 500; 1000; 500; 500]
                           /\ MIN_PERIOD_MS CONSTANTS < iv /\ iv < 2000).
  { exists 500. split; [left; reflexivity | split; reflexivity]. }
  split; [exact Hex |].
  exact (proj1 (proj2 (findDominantPeriod_picks_valid_interval CONSTANTS
                         [500; 500; 500; 1000; 500; 500]) Hex)).
Defined.

(* ====================================================================== *)
(** ** Further properties: counters and history                            *)
(* ====================================================================== *)

Lemma gridHit_counters (C : Constants) (t : Q) (s : Tracker) :
  (gridHits (gridHit C t s) + gridMisses (gridHit C t s)
   = gridHits s + gridMisses s + 1)%Z
  /\ (gridHits s <= gridHits (gridHit C t s))%Z
  /\ (gridMisses s <= gridMisses (gridHit C t s))%Z
  /\ onsetCount (gridHit C t s) = onsetCount s.
Proof.
  apply gridHit_elim; intros; cbn; repeat split; lia.
Qed.

Lemma step_counters_consistent (C : Constants) (op : Op) (s : Tracker) :
  counters_consistent s -> counters_consistent (fst (step C op s)).
Proof.
  intros [Hh [Hm Hsum]]. unfold counters_consistent.
  destruct op as [| t | bpm now | | | | now]; cbn [step].
  - cbn. lia.
  - apply addOnset_elim.
    + intros _ r. cbn. lia.
    + intros _ _ r. cbn. lia.
    + intros _ _ basePeriod r _ _. cbn. lia.
    + intros _ _ _. cbn. lia.
    + intros _. cbn. lia.
    + intros _ _. apply trackOnset_elim; intros _ r; cbn [fst].
      * cbn [halveGrid gridHits gridMisses onsetCount].
        destruct (gridHit_counters C t (noteOnset t s)) as [_ [_ [_ Hc]]].
        rewrite Hc. cbn. lia.
      * destruct (gridHit_counters C t (noteOnset t s))
          as [Hs1 [Hh1 [Hm1 Hc]]].
        rewrite Hc. cbn in *. lia.
  - cbn. lia.
  - cbn. lia.
  - cbn. lia.
  - cbn. lia.
  - destruct (silenceCheckInterval s); [| cbn; lia].
    apply silenceCheck_elim.
    + cbn. lia.
    + intros _ _ _. cbn. lia.
Qed.

(** A property of states that every call preserves holds after every
    session. *)
Lemma session_invariant (C : Constants) (ok : Op -> Prop)
    (P : Tracker -> Prop) :
  (forall op s, ok op -> P s -> P (fst (step C op s))) ->
  P createBeatTracker ->
  forall ops, Forall ok ops -> P (fst (session C ops)).
Proof.
  intros Hstep Hinit ops Hok.
  destruct (run_invariant C ok P (fun _ => True)) with (ops := ops)
    (s := createBeatTracker) as [Hs _]; auto.
  intros op s Hop HP. split; [auto |].
  apply Forall_forall. intros; exact I.
Qed.

Lemma Forall_trivial (ops : list Op) : Forall (fun _ : Op => True) ops.
Proof. apply Forall_forall. intros; exact I. Qed.

(** X2.  After every session the hit and miss counters are non-negative
    and together do not exceed [onsetCount]: since the last [reset],
    every onset was counted at most once as a hit or a miss. *)
Theorem counters_count_onsets (C : Constants) (ops : list Op) :
  (0 <= gridHits (fst (session C ops)))%Z
  /\ (0 <= gridMisses (fst (session C ops)))%Z
  /\ (gridHits (fst (session C ops)) + gridMisses (fst (session C ops))
      <= onsetCount (fst (session C ops)))%Z.
Proof.
  apply (session_invariant C (fun _ => True) counters_consistent).
  - intros op s _ HP. apply step_counters_consistent, HP.
  - unfold counters_consistent. cbn. lia.
  - apply Forall_trivial.
Qed.

(** X3.  An onset met while TRACKING with a non-zero period is counted
    exactly once: [gridHits + gridMisses] grows by one and neither
    counter decreases, unless the double-tempo correction fires, which
    leaves both at zero. *)
Theorem tracked_onset_counted_once (C : Constants) (t : Q) (s : Tracker) :
  state s = TRACKING -> ~ period s == 0 ->
  if doubleTempoFires C t (noteOnset t s)
  then gridHits (fst (addOnset C t s)) = 0%Z
       /\ gridMisses (fst (addOnset C t s)) = 0%Z
  else (gridHits (fst (addOnset C t s)) + gridMisses (fst (addOnset C t s))
        = gridHits s + gridMisses s + 1)%Z
       /\ (gridHits s <= gridHits (fst (addOnset C t s)))%Z
       /\ (gridMisses s <= gridMisses (fst (addOnset C t s)))%Z.
Proof.
  intros Hst Hnz. rewrite (addOnset_tracking C t s Hst Hnz).
  destruct (doubleTempoFires C t (noteOnset t s)).
  - split; reflexivity.
  - destruct (gridHit_counters C t (noteOnset t s)) as [H1 [H2 [H3 _]]].
    cbn in *. auto.
Qed.

Lemma tracked_onset_counted_once_witness :
  state calibrated = TRACKING /\ ~ period calibrated == 0
  /\ (gridHits (fst (addOnset CONSTANTS 4520 calibrated))
      + gridMisses (fst (addOnset CONSTANTS 4520 calibrated))
      = gridHits calibrated + gridMisses calibrated + 1)%Z.
Proof.
  assert (Hst : state calibrated = TRACKING) by (vm_compute; reflexivity).
  assert (Hnz : ~ period calibrated == 0)
    by (vm_compute; intro H; discriminate H).
  split; [exact Hst |]. split; [exact Hnz |].
  pose proof (tracked_onset_counted_once CONSTANTS 4520 calibrated Hst Hnz)
    as H.
  assert (Hf : doubleTempoFires CONSTANTS 4520 (noteOnset 4520 calibrated)
               = false) by (vm_compute; reflexivity).
  rewrite Hf in H. exact (proj1 H).
Defined.

Lemma adaptGrid_history (C : Constants) (t : Q) (n : Z) (o i : Q)
    (s : Tracker) :
  history_bounded C s -> history_bounded C (adaptGrid C t n o i s).
Proof.
  unfold history_bounded, adaptGrid. cbn [recentPeriods].
  intro Hs.
  assert (Hlen : length (recentPeriods s ++ [i])
                 = S (length (recentPeriods s)))
    by (rewrite length_app; cbn; lia).
  destruct (PERIOD_HISTORY C <? length (recentPeriods s ++ [i]))%nat eqn:E.
  - unfold Js.shift.
    destruct (recentPeriods s ++ [i]) as [| x xs] eqn:Ex;
      cbn in *; lia.
  - apply Nat.ltb_ge in E. lia.
Qed.

Lemma gridHit_history (C : Constants) (t : Q) (s : Tracker) :
  history_bounded C s -> history_bounded C (gridHit C t s).
Proof.
  intro Hs. apply gridHit_elim; intros.
  - apply adaptGrid_history. exact Hs.
  - exact Hs.
  - exact Hs.
Qed.

Lemma step_history_bounded (C : Constants) (op : Op) (s : Tracker) :
  history_bounded C s -> history_bounded C (fst (step C op s)).
Proof.
  intro Hs. pose proof Hs as Hs'. unfold history_bounded in Hs'.
  destruct op as [| t | bpm now | | | | now]; cbn [step].
  - unfold history_bounded. cbn. lia.
  - apply addOnset_elim.
    + intros _ r. exact Hs.
    + intros _ _ r. exact Hs.
    + intros _ _ basePeriod r _ _. unfold history_bounded.
      cbn [fst completeCalibration recentPeriods length]. lia.
    + intros _ _ _. exact Hs.
    + intros _. exact Hs.
    + intros _ _. apply trackOnset_elim; intros _ r; cbn [fst].
      * pose proof (gridHit_history C t (noteOnset t s) Hs) as Hg.
        unfold history_bounded in *. cbn [halveGrid recentPeriods].
        rewrite length_map. exact Hg.
      * apply gridHit_history. exact Hs.
  - exact Hs.
  - exact Hs.
  - exact Hs.
  - exact Hs.
  - destruct (silenceCheckInterval s); [| exact Hs].
    apply silenceCheck_elim; [exact Hs | intros _ _ _; exact Hs].
Qed.

(** X4.  After every session [recentPeriods] holds at most
    [PERIOD_HISTORY] entries, or one entry when [PERIOD_HISTORY] is 0
    (the calibration period is stored without a length test). *)
Theorem recentPeriods_bounded (C : Constants) (ops : list Op) :
  (length (recentPeriods (fst (session C ops)))
   <= Nat.max 1 (PERIOD_HISTORY C))%nat.
Proof.
  apply (session_invariant C (fun _ => True) (history_bounded C)).
  - intros op s _ HP. apply step_history_bounded, HP.
  - unfold history_bounded. cbn. lia.
  - apply Forall_trivial.
Qed.

(* ====================================================================== *)
(** ** Further properties: the grid                                        *)
(* ====================================================================== *)

(** The offset of an onset from the nearest beat is at most half a
    beat. *)
Lemma absOffset_le_half (t : Q) (s : Tracker) : absOffset t s <= 0.5.
Proof.
  unfold absOffset, offset, nearestBeat, Js.abs.
  destruct (round_bounds (beatFraction t s)) as [Hlo Hhi].
  apply Qabs_Qle_condition. split; lra.
Qed.

(** X5.  An off-grid onset never adjusts the grid: met while TRACKING
    with a non-zero period, off the grid and without double-tempo
    correction, it leaves [period], [phase], [targetPeriod] and
    [recentPeriods] as they were, adds one to [gridMisses], keeps
    [gridHits], and lowers the confidence by 0.02, not below 0. *)
Theorem off_grid_onset_keeps_grid (C : Constants) (t : Q) (s : Tracker) :
  state s = TRACKING -> ~ period s == 0 ->
  onGrid C t s = false ->
  doubleTempoFires C t (noteOnset t s) = false ->
  period (fst (addOnset C t s)) = period s
  /\ phase (fst (addOnset C t s)) = phase s
  /\ targetPeriod (fst (addOnset C t s)) = targetPeriod s
  /\ recentPeriods (fst (addOnset C t s)) = recentPeriods s
  /\ gridMisses (fst (addOnset C t s)) = (gridMisses s + 1)%Z
  /\ gridHits (fst (addOnset C t s)) = gridHits s
  /\ confidence (fst (addOnset C t s)) = Js.max 0 (confidence s - 0.02)
  /\ state (fst (addOnset C t s)) = TRACKING.
Proof.
  intros Hst Hnz Hoff Hno.
  rewrite (addOnset_tracking C t s Hst Hnz), Hno.
  unfold gridHit.
  change (onGrid C t (noteOnset t s)) with (onGrid C t s). rewrite Hoff.
  cbn. repeat split; auto.
Qed.

Lemma off_grid_onset_keeps_grid_witness :
  state calibrated = TRACKING /\ ~ period calibrated == 0
  /\ onGrid CONSTANTS 4250 calibrated = false
  /\ period (fst (addOnset CONSTANTS 4250 calibrated)) = period calibrated.
Proof.
  assert (Hst : state calibrated = TRACKING) by (vm_compute; reflexivity).
  assert (Hnz : ~ period calibrated == 0)
    by (vm_compute; intro H; discriminate H).
  assert (Hoff : onGrid CONSTANTS 4250 calibrated = false)
    by (vm_compute; reflexivity).
  assert (Hno : doubleTempoFires CONSTANTS 4250 (noteOnset 4250 calibrated)
                = false) by (vm_compute; reflexivity).
  split; [exact Hst |]. split; [exact Hnz |]. split; [exact Hoff |].
  exact (proj1 (off_grid_onset_keeps_grid CONSTANTS 4250 calibrated
                  Hst Hnz Hoff Hno)).
Defined.

(** X6.  With a grid tolerance of at most 0.35 the double-tempo
    correction fires only on an off-grid onset, at least six misses
    after the counters were last zeroed, with a period of more than
    twice [MIN_PERIOD_MS]; the offset is then above 0.35 and, as for
    every onset, at most 0.5, so that the test [absOffset < 0.65] of the
    code never decides. *)
Theorem double_tempo_only_off_grid (C : Constants) (t : Q) (s : Tracker) :
  GRID_TOLERANCE C <= 0.35 ->
  doubleTempoFires C t s = true ->
  onGrid C t s = false
  /\ 0.35 < absOffset t s /\ absOffset t s <= 0.5
  /\ (6 <= gridMisses s)%Z
  /\ inject_Z (gridHits s) * 0.5 < inject_Z (gridMisses s) + 1
  /\ 2 * MIN_PERIOD_MS C < period s.
Proof.
  intros Htol Hf. unfold doubleTempoFires in Hf.
  apply andb_true_iff in Hf. destruct Hf as [Hd Hh].
  unfold doubleTempoDetected in Hd.
  apply andb_true_iff in Hd. destruct Hd as [Hd Hsix].
  apply andb_true_iff in Hd. destruct Hd as [Hd Hratio].
  apply andb_true_iff in Hd. destruct Hd as [Hlow _].
  apply ltb_lt in Hlow, Hsix, Hratio.
  unfold halfPeriodValid in Hh. apply ltb_lt in Hh.
  assert (Hoff : onGrid C t s = false).
  { unfold onGrid. apply ltb_ge. lra. }
  unfold gridHit in Hsix, Hratio, Hh. rewrite Hoff in Hsix, Hratio, Hh.
  cbn [countMiss gridHits gridMisses period] in Hsix, Hratio, Hh.
  split; [exact Hoff |]. split; [exact Hlow |].
  split; [apply absOffset_le_half |].
  split; [| split].
  - change 6 with (inject_Z 6) in Hsix. rewrite <- Zlt_Qlt in Hsix. lia.
  - rewrite inject_Z_plus in Hratio. change (inject_Z 1) with 1 in Hratio.
    exact Hratio.
  - change (period s / 2) with (period s * (1 # 2)) in Hh. lra.
Qed.

Lemma double_tempo_only_off_grid_witness :
  GRID_TOLERANCE CONSTANTS <= 0.35
  /\ doubleTempoFires CONSTANTS 7787 drifted = true
  /\ onGrid CONSTANTS 7787 drifted = false
  /\ (6 <= gridMisses drifted)%Z.
Proof.
  assert (Htol : GRID_TOLERANCE CONSTANTS <= 0.35)
    by (vm_compute; discriminate).
  assert (Hf : doubleTempoFires CONSTANTS 7787 drifted = true)
    by (vm_compute; reflexivity).
  split; [exact Htol |]. split; [exact Hf |].
  destruct (double_tempo_only_off_grid CONSTANTS 7787 drifted Htol Hf)
    as [H1 [_ [_ [H4 _]]]].
  split; [exact H1 | exact H4].
Defined.

(* ====================================================================== *)
(** ** Further properties: the range of the periods                        *)
(* ====================================================================== *)

(** A step of an exponential filter with a fractional rate stays
    strictly between bounds that hold of both the old value and the
    input. *)
Lemma filter_step_between (a x y lo hi : Q) :
  0 <= a -> a <= 1 -> lo < x -> x < hi -> lo < y -> y < hi ->
  lo < x + a * (y - x) /\ x + a * (y - x) < hi.
Proof.
  intros Ha0 Ha1 Hx1 Hx2 Hy1 Hy2.
  destruct (Qlt_le_dec y x) as [Hyx | Hxy].
  - assert (H0 : 0 <= a * (x - y)) by (apply Qmult_le_0_compat; lra).
    assert (H1 : a * (x - y) <= 1 * (x - y))
      by (apply Qmult_le_compat_r; lra).
    assert (E : a * (y - x) == - (a * (x - y))) by ring.
    split; lra.
  - assert (H0 : 0 <= a * (y - x)) by (apply Qmult_le_0_compat; lra).
    assert (H1 : a * (y - x) <= 1 * (y - x))
      by (apply Qmult_le_compat_r; lra).
    split; lra.
Qed.

Lemma impliedPeriodValid_bounds (C : Constants) (t : Q) (s : Tracker) :
  impliedPeriodValid C t s = true ->
  MIN_PERIOD_MS C < impliedPeriod t s
  /\ impliedPeriod t s < MAX_PERIOD_MS C
  /\ (0 < nearestBeat t s)%Z.
Proof.
  unfold impliedPeriodValid. intro H.
  apply andb_true_iff in H. destruct H as [H Hn].
  apply andb_true_iff in H. destruct H as [Hlo Hhi].
  apply ltb_lt in Hlo, Hhi. apply Z.ltb_lt in Hn. auto.
Qed.

Lemma gridHit_in_range (C : Constants) (t : Q) (s : Tracker) :
  rates_ok C -> periods_in_range C s -> periods_in_range C (gridHit C t s).
Proof.
  intros [Hf0 [Hf1 [Hs0 Hs1]]] [Hp1 [Hp2 [Ht1 Ht2]]].
  apply gridHit_elim; intros Hg; try intros Hv.
  - apply impliedPeriodValid_bounds in Hv. destruct Hv as [Hi1 [Hi2 _]].
    assert (Hi3 : impliedPeriod t s < Qmax 2000 (MAX_PERIOD_MS C)).
    { apply Qlt_le_trans with (MAX_PERIOD_MS C); [exact Hi2 |].
      apply Q.le_max_r. }
    unfold periods_in_range, adaptGrid.
    cbn [period targetPeriod countHit].
    destruct (filter_step_between (ADAPT_FAST C) (period s)
                (impliedPeriod t s) (MIN_PERIOD_MS C)
                (Qmax 2000 (MAX_PERIOD_MS C))) as [Hn1 Hn2]; auto.
    destruct (filter_step_between (ADAPT_SLOW C) (targetPeriod s)
                (period s + ADAPT_FAST C * (impliedPeriod t s - period s))
                (MIN_PERIOD_MS C)
                (Qmax 2000 (MAX_PERIOD_MS C))) as [Hn3 Hn4]; auto.
  - unfold periods_in_range. cbn. auto.
  - unfold periods_in_range. cbn. auto.
Qed.

Lemma halveGrid_in_range (C : Constants) (t : Q) (s : Tracker) :
  periods_in_range C s -> MIN_PERIOD_MS C < period s / 2 ->
  periods_in_range C (halveGrid t s).
Proof.
  intros [Hp1 [Hp2 _]] Hh.
  assert (Hu : 2000 <= Qmax 2000 (MAX_PERIOD_MS C)) by apply Q.le_max_l.
  assert (Hhi : period s / 2 < Qmax 2000 (MAX_PERIOD_MS C)).
  { change (period s / 2) with (period s * (1 # 2)). lra. }
  unfold periods_in_range. cbn [halveGrid period targetPeriod]. auto.
Qed.

Lemma step_calibrated_in_range (C : Constants) (op : Op) (s : Tracker) :
  rates_ok C -> not_setTarget op ->
  calibrated_in_range C s -> calibrated_in_range C (fst (step C op s)).
Proof.
  intros HC Hop Hs. unfold calibrated_in_range in *.
  assert (Hzero : (0 : Q) == 0) by reflexivity.
  destruct op as [| t | bpm now | | | | now]; cbn [step].
  - left. cbn. repeat split; auto. discriminate.
  - apply addOnset_elim.
    + intros _ r. destruct Hs as [[Hp [Ht _]] | Hr].
      * left. cbn. repeat split; auto. discriminate.
      * right. exact Hr.
    + intros Hst _ r. destruct Hs as [[Hp [Ht _]] | Hr].
      * left. cbn. repeat split; auto. congruence.
      * right. exact Hr.
    + intros _ _ basePeriod r Hpos Hbase. right.
      destruct (findDominantPeriod_zero_or_valid C
                  (intervalsOf (calOnsets s ++ [t])))
        as [[_ Hz] | [_ [_ [Hlo Hhi]]]].
      * exfalso. rewrite <- Hbase in Hz. rewrite Hz in Hpos.
        exact (Qlt_irrefl 0 Hpos).
      * rewrite <- Hbase in Hlo, Hhi.
        assert (Hu : 2000 <= Qmax 2000 (MAX_PERIOD_MS C))
          by apply Q.le_max_l.
        unfold periods_in_range. cbn. repeat split; auto; lra.
    + intros Hst _ _. destruct Hs as [[Hp [Ht _]] | Hr].
      * left. cbn. repeat split; auto. congruence.
      * right. exact Hr.
    + intros _. exact Hs.
    + intros Hst Hnz. destruct Hs as [[Hp _] | Hr]; [contradiction |].
      right. apply trackOnset_elim; intros Hf r; cbn [fst].
      * apply halveGrid_in_range.
        -- apply gridHit_in_range; [exact HC | exact Hr].
        -- apply doubleTempoFires_half. exact Hf.
      * apply gridHit_in_range; [exact HC | exact Hr].
  - destruct Hop.
  - exact Hs.
  - exact Hs.
  - exact Hs.
  - destruct (silenceCheckInterval s); [| exact Hs].
    apply silenceCheck_elim; [exact Hs |].
    intros _ _ _. destruct Hs as [[Hp [Ht _]] | Hr].
    + left. cbn. repeat split; auto. discriminate.
    + right. exact Hr.
Qed.

(** X7.  In a session that never calls [setTarget], with adaptation
    rates within [0, 1], the periods are never out of range: after
    every such session either no calibration has completed since the
    last [reset] ([period] and [targetPeriod] are 0 and the tracker is
    not TRACKING), or [period] and [targetPeriod] both lie strictly
    between [MIN_PERIOD_MS] and the larger of 2000 and [MAX_PERIOD_MS]
    (tempi between 30 and 300 BPM with the default constants). *)
Theorem periods_stay_in_range (C : Constants) (ops : list Op) :
  rates_ok C ->
  Forall not_setTarget ops ->
  (period (fst (session C ops)) == 0
   /\ targetPeriod (fst (session C ops)) == 0
   /\ state (fst (session C ops)) <> TRACKING)
  \/ (MIN_PERIOD_MS C < period (fst (session C ops))
      /\ period (fst (session C ops)) < Qmax 2000 (MAX_PERIOD_MS C)
      /\ MIN_PERIOD_MS C < targetPeriod (fst (session C ops))
      /\ targetPeriod (fst (session C ops)) < Qmax 2000 (MAX_PERIOD_MS C)).
Proof.
  intros HC Hok.
  apply (session_invariant C not_setTarget (calibrated_in_range C)).
  - intros op s Hop HP. apply step_calibrated_in_range; assumption.
  - left. cbn. repeat split; try reflexivity. discriminate.
  - exact Hok.
Qed.

Lemma periods_stay_in_range_witness :
  rates_ok CONSTANTS
  /\ Forall not_setTarget drifted_ops
  /\ MIN_PERIOD_MS CONSTANTS < period (fst (session CONSTANTS drifted_ops)).
Proof.
  assert (HC : rates_ok CONSTANTS).
  { unfold rates_ok. cbn. repeat split; discriminate. }
  assert (Hok : Forall not_setTarget drifted_ops).
  { unfold drifted_ops, calibrated_ops. cbn [onsetsEvery app].
    repeat (apply Forall_cons; [exact I |]). apply Forall_nil. }
  split; [exact HC |]. split; [exact Hok |].
  destruct (periods_stay_in_range CONSTANTS drifted_ops HC Hok)
    as [[Hz _] | [Hlo _]].
  - exfalso. revert Hz. vm_compute. discriminate.
  - exact Hlo.
Defined.

(* ====================================================================== *)
(** ** Further properties: what the sinks receive                          *)
(* ====================================================================== *)

(** The [Update] a call emits is the snapshot of the state it leaves. *)
Lemma step_update_final (C : Constants) (op : Op) (s : Tracker) (u : Update) :
  In (EvUpdate u) (snd (step C op s)) ->
  u = updateOf C (fst (step C op s)).
Proof.
  assert (Hone : forall s' u',
            In (EvUpdate u') [EvUpdate (updateOf C s')] ->
            u' = updateOf C s').
  { intros s' u' [H | []]. congruence. }
  assert (Htwo : forall r s' u',
            In (EvUpdate u') [EvTrace r; EvUpdate (updateOf C s')] ->
            u' = updateOf C s').
  { intros r s' u' [H | H]; [discriminate | exact (Hone _ _ H)]. }
  revert u.
  destruct op as [| t | bpm now | | | | now]; cbn [step].
  - intros u. apply Hone.
  - apply addOnset_elim.
    + intros _ r u. apply Htwo.
    + intros _ _ r u. apply Htwo.
    + intros _ _ basePeriod r _ _ u. apply Htwo.
    + intros _ _ _ u. apply Hone.
    + intros _ u [].
    + intros _ _. apply trackOnset_elim; intros _ r u; apply Htwo.
  - intros u. apply Hone.
  - intros u [].
  - intros u [].
  - intros u [].
  - destruct (silenceCheckInterval s); [| intros u []].
    apply silenceCheck_elim.
    + intros u [].
    + intros _ _ _ u. apply Hone.
Qed.

Lemma run_cons_fst (C : Constants) (op : Op) (ops : list Op) (s : Tracker) :
  fst (run C (op :: ops) s) = fst (run C ops (fst (step C op s))).
Proof.
  cbn [run]. destruct (step C op s) as [s1 e1]. cbn [fst snd].
  destruct (run C ops s1) as [s2 e2]. reflexivity.
Qed.

Lemma run_cons_snd (C : Constants) (op : Op) (ops : list Op) (s : Tracker) :
  snd (run C (op :: ops) s)
  = snd (step C op s) ++ snd (run C ops (fst (step C op s))).
Proof.
  cbn [run]. destruct (step C op s) as [s1 e1]. cbn [fst snd].
  destruct (run C ops s1) as [s2 e2]. reflexivity.
Qed.

Lemma run_app_fst (C : Constants) (ops1 ops2 : list Op) (s : Tracker) :
  fst (run C (ops1 ++ ops2) s) = fst (run C ops2 (fst (run C ops1 s))).
Proof.
  revert s. induction ops1 as [| op ops1 IH]; intro s.
  - reflexivity.
  - cbn [app]. rewrite !run_cons_fst. apply IH.
Qed.

Lemma run_app_snd (C : Constants) (ops1 ops2 : list Op) (s : Tracker) :
  snd (run C (ops1 ++ ops2) s)
  = snd (run C ops1 s) ++ snd (run C ops2 (fst (run C ops1 s))).
Proof.
  revert s. induction ops1 as [| op ops1 IH]; intro s.
  - reflexivity.
  - cbn [app]. rewrite !run_cons_snd, run_cons_fst, IH.
    rewrite app_assoc. reflexivity.
Qed.

(** An [Update] among the events of a run is among the events of one of
    its calls. *)
Lemma run_update_emitter (C : Constants) (ops : list Op) (s : Tracker)
    (u : Update) :
  In (EvUpdate u) (snd (run C ops s)) ->
  exists pre op post,
    ops = pre ++ op :: post
    /\ In (EvUpdate u) (snd (step C op (fst (run C pre s)))).
Proof.
  revert s. induction ops as [| op ops IH]; intros s Hin.
  - destruct Hin.
  - rewrite run_cons_snd in Hin. apply in_app_or in Hin.
    destruct Hin as [Hin | Hin].
    + exists [], op, ops. split; [reflexivity | exact Hin].
    + destruct (IH _ Hin) as [pre [op' [post [Hops Hu]]]].
      exists (op :: pre), op', post. split; [cbn; congruence |].
      rewrite run_cons_fst. exact Hu.
Qed.


(** X8.  Every [Update] handed to [onUpdate] during a session is the
    snapshot of the tracker as the call that emitted it left it.  The
    events of a session are those of its calls, one call after the
    other, [emittedBy C pre op] being those of the call [op] made after
    the calls [pre]; an [Update] among the events of that call is
    [emitUpdate]'s picture of the state after [pre] and [op]; and every
    [Update] of the session is among the events of one of its calls. *)
Theorem updates_are_current (C : Constants) :
  (forall pre op post,
     snd (session C (pre ++ op :: post))
     = snd (session C pre) ++ emittedBy C pre op
       ++ snd (run C post (fst (session C (pre ++ [op])))))
  /\ (forall pre op u,
        In (EvUpdate u) (emittedBy C pre op) ->
        u = updateOf C (fst (session C (pre ++ [op]))))
  /\ (forall ops u,
        In (EvUpdate u) (snd (session C ops)) ->
        exists pre op post,
          ops = pre ++ op :: post
          /\ In (EvUpdate u) (emittedBy C pre op)
          /\ u = updateOf C (fst (session C (pre ++ [op])))).
Proof.
  assert (Hst : forall pre op,
            fst (session C (pre ++ [op]))
            = fst (step C op (fst (session C pre)))).
  { intros pre op. unfold session.
    rewrite run_app_fst, run_cons_fst. reflexivity. }
  assert (Hcur : forall pre op u,
            In (EvUpdate u) (emittedBy C pre op) ->
            u = updateOf C (fst (session C (pre ++ [op])))).
  { intros pre op u Hin. rewrite Hst. apply step_update_final. exact Hin. }
  split; [| split].
  - intros pre op post. rewrite Hst. unfold session, emittedBy, session.
    rewrite run_app_snd, run_cons_snd. reflexivity.
  - exact Hcur.
  - intros ops u Hin.
    destruct (run_update_emitter C ops createBeatTracker u Hin)
      as [pre [op [post [Hops Hu]]]].
    exists pre, op, post. split; [exact Hops |].
    split; [exact Hu | apply Hcur; exact Hu].
Qed.

Lemma updates_are_current_witness :
  In (EvUpdate
        (updateOf CONSTANTS (fst (session CONSTANTS [OpReset; OpAddOnset 0]))))
     (emittedBy CONSTANTS [OpReset] (OpAddOnset 0))
  /\ exists pre op post,
       [OpReset; OpAddOnset 0] = pre ++ op :: post
       /\ In (EvUpdate
                (updateOf CONSTANTS
                   (fst (session CONSTANTS [OpReset; OpAddOnset 0]))))
             (emittedBy CONSTANTS pre op).
Proof.
  assert (Hin : In (EvUpdate
                      (updateOf CONSTANTS
                         (fst (session CONSTANTS [OpReset; OpAddOnset 0]))))
                  (snd (session CONSTANTS [OpReset; OpAddOnset 0])))
    by (right; right; left; reflexivity).
  destruct (proj2 (proj2 (updates_are_current CONSTANTS)) _ _ Hin)
    as [pre [op [post [Hops [Hu _]]]]].
  split.
  - right; left; reflexivity.
  - exists pre, op, post. split; [exact Hops | exact Hu].
Defined.







(* ====================================================================== *)
(** ** Further properties: the states                                      *)
(* ====================================================================== *)

Lemma step_untouched (C : Constants) (op : Op) (s : Tracker) :
  ~ leaves_idle op -> untouched s ->
  untouched (fst (step C op s)) /\ snd (step C op s) = [].
Proof.
  intros Hop Hs. pose proof Hs as [Hst _].
  destruct op as [| t | bpm now | | | | now]; cbn [step].
  - exfalso. apply Hop. exact I.
  - apply addOnset_elim; try congruence.
    intros _. cbn [fst snd]. split; [exact Hs | reflexivity].
  - exfalso. apply Hop. exact I.
  - cbn. split; [exact Hs | reflexivity].
  - cbn. split; [exact Hs | reflexivity].
  - cbn. split; [exact Hs | reflexivity].
  - destruct (silenceCheckInterval s);
      [| cbn [fst snd]; split; [exact Hs | reflexivity]].
    apply silenceCheck_elim.
    + cbn [fst snd]. split; [exact Hs | reflexivity].
    + intros [Ht | Hc] _ _; congruence.
Qed.

Lemma run_untouched (C : Constants) (ops : list Op) (s : Tracker) :
  Forall (fun op => ~ leaves_idle op) ops -> untouched s ->
  untouched (fst (run C ops s)) /\ snd (run C ops s) = [].
Proof.
  revert s. induction ops as [| op ops IH]; intros s Hok Hs.
  - cbn. auto.
  - inversion Hok as [| ? ? Hop Hops]; subst.
    destruct (step_untouched C op s Hop Hs) as [H1 E1].
    destruct (IH _ Hops H1) as [H2 E2].
    rewrite run_cons_fst, run_cons_snd, E1, E2. auto.
Qed.

Lemma step_leaves_idle (C : Constants) (op : Op) (s : Tracker) :
  leaves_idle op \/ state s <> IDLE -> state (fst (step C op s)) <> IDLE.
Proof.
  intros H.
  destruct op as [| t | bpm now | | | | now]; cbn [step];
    try (cbn; discriminate);
    try (destruct H as [[] | H]).
  - apply addOnset_elim.
    + intros _ r. cbn. discriminate.
    + intros Hst _ r. cbn. exact H.
    + intros _ _ basePeriod r _ _. cbn. discriminate.
    + intros Hst _ _. cbn. exact H.
    + intros _. cbn. exact H.
    + intros Hst _. apply trackOnset_elim; intros _ r; cbn [fst].
      * cbn [halveGrid state]. rewrite gridHit_state. cbn. exact H.
      * rewrite gridHit_state. cbn. exact H.
  - cbn. exact H.
  - cbn. exact H.
  - cbn. exact H.
  - destruct (silenceCheckInterval s); [| cbn; exact H].
    apply silenceCheck_elim; [cbn; exact H |].
    intros _ _ _. cbn. discriminate.
Qed.

Lemma run_leaves_idle (C : Constants) (ops : list Op) (s : Tracker) :
  Exists leaves_idle ops \/ state s <> IDLE ->
  state (fst (run C ops s)) <> IDLE.
Proof.
  revert s. induction ops as [| op ops IH]; intros s H.
  - destruct H as [H | H]; [inversion H | exact H].
  - rewrite run_cons_fst. apply IH.
    destruct H as [H | H].
    + inversion H as [? ? Hop | ? ? Hex]; subst.
      * right. apply step_leaves_idle. left. exact Hop.
      * left. exact Hex.
    + right. apply step_leaves_idle. right. exact H.
Qed.

(** X10.  A tracker stays IDLE until [reset] or [setTarget] is called,
    and never returns to IDLE afterwards.  In a session without those
    two calls the tracker is IDLE at the end, neither sink has been
    called, and but for [lastOnsetTime], [onsetCount] and the timer the
    variables are as at creation, whatever onsets and timer firings the
    session contains; in a session with one of them it is not IDLE at
    the end. *)
Theorem idle_until_reset_or_setTarget (C : Constants) (ops : list Op) :
  (Forall (fun op => ~ leaves_idle op) ops ->
   state (fst (session C ops)) = IDLE
   /\ snd (session C ops) = []
   /\ period (fst (session C ops)) = 0
   /\ targetPeriod (fst (session C ops)) = 0
   /\ confidence (fst (session C ops)) = 0
   /\ calOnsets (fst (session C ops)) = []
   /\ recentPeriods (fst (session C ops)) = [])
  /\ (Exists leaves_idle ops -> state (fst (session C ops)) <> IDLE).
Proof.
  split.
  - intro Hok.
    destruct (run_untouched C ops createBeatTracker Hok) as [Hu He].
    { unfold untouched. cbn. repeat split; reflexivity. }
    destruct Hu as [H1 [H2 [_ [H4 [H5 [H6 [_ [_ H9]]]]]]]].
    unfold session. auto 10.
  - intro Hex. apply run_leaves_idle. left. exact Hex.
Qed.

Lemma idle_until_reset_or_setTarget_witness :
  Forall (fun op => ~ leaves_idle op)
    [OpStartSilenceWatch; OpAddOnset 1000; OpSilenceTick 9000]
  /\ state (fst (session CONSTANTS
                   [OpStartSilenceWatch; OpAddOnset 1000; OpSilenceTick 9000]))
     = IDLE
  /\ Exists leaves_idle calibrated_ops
  /\ state (fst (session CONSTANTS calibrated_ops)) <> IDLE.
Proof.
  assert (Hok : Forall (fun op => ~ leaves_idle op)
                  [OpStartSilenceWatch; OpAddOnset 1000; OpSilenceTick 9000]).
  { repeat (apply Forall_cons; [intros [] |]). apply Forall_nil. }
  assert (Hex : Exists leaves_idle calibrated_ops).
  { unfold calibrated_ops. apply Exists_cons_hd. exact I. }
  split; [exact Hok |].
  split; [exact (proj1 (proj1 (idle_until_reset_or_setTarget CONSTANTS _)
                          Hok)) |].
  split; [exact Hex |].
  exact (proj2 (idle_until_reset_or_setTarget CONSTANTS _) Hex).
Defined.

Lemma step_not_waiting (C : Constants) (op : Op) (s : Tracker) :
  ~ is_silenceTick op \/ silenceCheckInterval (fst (step C op s)) = false ->
  state s <> WAITING -> state (fst (step C op s)) <> WAITING.
Proof.
  intros Hop Hs.
  destruct op as [| t | bpm now | | | | now]; cbn [step] in *;
    try (cbn; first [discriminate | exact Hs]).
  - apply addOnset_elim.
    + intros Hst. congruence.
    + intros Hst _ r. cbn. exact Hs.
    + intros _ _ basePeriod r _ _. cbn. discriminate.
    + intros Hst _ _. cbn. exact Hs.
    + intros _. cbn. exact Hs.
    + intros Hst _. apply trackOnset_elim; intros _ r; cbn [fst].
      * cbn [halveGrid state]. rewrite gridHit_state. cbn. exact Hs.
      * rewrite gridHit_state. cbn. exact Hs.
  - destruct Hop as [Hop | Hoff]; [exfalso; apply Hop; exact I |].
    destruct (silenceCheckInterval s) eqn:Ei; [| cbn; exact Hs].
    exfalso. revert Hoff. apply silenceCheck_elim.
    + cbn. congruence.
    + intros _ _ _. cbn. congruence.
Qed.

Lemma step_timer_absent (C : Constants) (op : Op) (s : Tracker) :
  ~ is_startSilenceWatch op -> silenceCheckInterval s = false ->
  silenceCheckInterval (fst (step C op s)) = false.
Proof.
  intros Hop Hs.
  destruct op as [| t | bpm now | | | | now]; cbn [step];
    try (cbn; first [reflexivity | exact Hs]).
  - apply addOnset_elim; intros; try (cbn; exact Hs).
    apply trackOnset_elim; intros _ r; cbn [fst].
    + cbn [halveGrid silenceCheckInterval].
      apply gridHit_elim; intros; cbn; exact Hs.
    + apply gridHit_elim; intros; cbn; exact Hs.
  - exfalso. apply Hop. exact I.
  - rewrite Hs. cbn. exact Hs.
Qed.

(** X11.  WAITING is entered by the silence timer only: after a session
    in which [startSilenceWatch] is never called, or in which the timer
    never fires, the tracker is not WAITING. *)
Theorem waiting_needs_silence_timer (C : Constants) (ops : list Op) :
  Forall (fun op => ~ is_startSilenceWatch op) ops
  \/ Forall (fun op => ~ is_silenceTick op) ops ->
  state (fst (session C ops)) <> WAITING.
Proof.
  intros [Hno | Hno].
  - assert (H : silenceCheckInterval (fst (session C ops)) = false
                /\ state (fst (session C ops)) <> WAITING).
    { apply (session_invariant C (fun op => ~ is_startSilenceWatch op)
               (fun s => silenceCheckInterval s = false
                         /\ state s <> WAITING)).
      - intros op s Hop [Hoff Hst].
        pose proof (step_timer_absent C op s Hop Hoff) as Hoff'.
        split; [exact Hoff' |].
        apply step_not_waiting; [right; exact Hoff' | exact Hst].
      - split; [reflexivity | discriminate].
      - exact Hno. }
    exact (proj2 H).
  - apply (session_invariant C (fun op => ~ is_silenceTick op)
             (fun s => state s <> WAITING)).
    + intros op s Hop Hst.
      apply step_not_waiting; [left; exact Hop | exact Hst].
    + discriminate.
    + exact Hno.
Qed.

Lemma waiting_needs_silence_timer_witness :
  (Forall (fun op => ~ is_startSilenceWatch op)
     (calibrated_ops ++ [OpSilenceTick 9000])
   \/ Forall (fun op => ~ is_silenceTick op)
        (calibrated_ops ++ [OpSilenceTick 9000]))
  /\ state (fst (session CONSTANTS (calibrated_ops ++ [OpSilenceTick 9000])))
     <> WAITING.
Proof.
  assert (Hno : Forall (fun op => ~ is_startSilenceWatch op)
                  (calibrated_ops ++ [OpSilenceTick 9000])).
  { unfold calibrated_ops. cbn [onsetsEvery app].
    repeat (apply Forall_cons; [intros [] |]). apply Forall_nil. }
  split; [left; exact Hno |].
  exact (waiting_needs_silence_timer CONSTANTS _ (or_introl Hno)).
Defined.

(** X12.  One firing of the silence timer forces WAITING exactly when
    the tracker is TRACKING or CALIBRATING, the last onset has a
    positive timestamp, and more than [SILENCE_TIMEOUT_MS] have passed
    since: the tracker then goes to WAITING with confidence 0, one
    [Update] is emitted, and every other variable keeps its value.  In
    every other case, in particular when the last onset was at time 0
    or the tracker is already WAITING, the firing changes nothing and
    emits nothing. *)
Theorem silenceCheck_fires_iff (C : Constants) (now : Q) (s : Tracker) :
  (silent C now s ->
   state (fst (silenceCheck C now s)) = WAITING
   /\ confidence (fst (silenceCheck C now s)) = 0
   /\ snd (silenceCheck C now s)
      = [EvUpdate (updateOf C (fst (silenceCheck C now s)))]
   /\ period (fst (silenceCheck C now s)) = period s
   /\ targetPeriod (fst (silenceCheck C now s)) = targetPeriod s
   /\ phase (fst (silenceCheck C now s)) = phase s
   /\ calOnsets (fst (silenceCheck C now s)) = calOnsets s
   /\ recentPeriods (fst (silenceCheck C now s)) = recentPeriods s
   /\ onsetCount (fst (silenceCheck C now s)) = onsetCount s
   /\ gridHits (fst (silenceCheck C now s)) = gridHits s
   /\ gridMisses (fst (silenceCheck C now s)) = gridMisses s
   /\ lastOnsetTime (fst (silenceCheck C now s)) = lastOnsetTime s)
  /\ (~ silent C now s -> silenceCheck C now s = (s, [])).
Proof.
  unfold silent, silenceCheck. split.
  - intros [Hst [Hlast Hgap]].
    apply (proj2 (ltb_lt _ _)) in Hlast. apply (proj2 (ltb_lt _ _)) in Hgap.
    rewrite Hlast, Hgap. cbn [andb].
    destruct Hst as [Hst | Hst]; rewrite Hst; cbn; repeat split; reflexivity.
  - intro Hnot.
    destruct (State_eqb (state s) IDLE) eqn:Ei; [reflexivity |].
    destruct (Js.ltb 0 (lastOnsetTime s)) eqn:E0; [| reflexivity].
    destruct (Js.ltb (SILENCE_TIMEOUT_MS C) (now - lastOnsetTime s)) eqn:E1;
      [| reflexivity].
    cbn [andb]. apply ltb_lt in E0, E1.
    destruct (state s) eqn:Es; cbn [State_eqb orb]; try reflexivity.
    + exfalso. apply Hnot. auto.
    + exfalso. apply Hnot. auto.
Qed.

Lemma silenceCheck_fires_iff_witness :
  silent CONSTANTS 9000 calibrated
  /\ state (fst (silenceCheck CONSTANTS 9000 calibrated)) = WAITING
  /\ ~ silent CONSTANTS 9000 (fst (session CONSTANTS [OpReset; OpAddOnset 0]))
  /\ silenceCheck CONSTANTS 9000
       (fst (session CONSTANTS [OpReset; OpAddOnset 0]))
     = (fst (session CONSTANTS [OpReset; OpAddOnset 0]), []).
Proof.
  assert (H1 : silent CONSTANTS 9000 calibrated).
  { unfold silent. vm_compute. repeat split; auto. }
  assert (H2 : ~ silent CONSTANTS 9000
                 (fst (session CONSTANTS [OpReset; OpAddOnset 0]))).
  { unfold silent. vm_compute. intros [_ [H _]]. discriminate H. }
  split; [exact H1 |].
  split; [exact (proj1 (proj1 (silenceCheck_fires_iff CONSTANTS 9000 _) H1)) |].
  split; [exact H2 |].
  exact (proj2 (silenceCheck_fires_iff CONSTANTS 9000 _) H2).
Defined.

(* ====================================================================== *)
(** ** Further properties: what an onset always does                       *)
(* ====================================================================== *)

Lemma gridHit_bookkeeping (C : Constants) (t : Q) (s : Tracker) :
  lastOnsetTime (gridHit C t s) = lastOnsetTime s
  /\ onsetCount (gridHit C t s) = onsetCount s
  /\ silenceCheckInterval (gridHit C t s) = silenceCheckInterval s.
Proof.
  apply gridHit_elim; intros; cbn; auto.
Qed.

(** X13.  [addOnset] always records the onset, and reports it at most
    once.  In every state it sets [lastOnsetTime] to the timestamp and
    adds one to [onsetCount].  When the tracker is IDLE, or TRACKING
    with a zero period, no sink is called; in every other case exactly
    one [Update] is emitted, last, and it is the snapshot of the state
    the call leaves, preceded by at most one trace record. *)
Theorem addOnset_records_and_reports (C : Constants) (t : Q) (s : Tracker) :
  lastOnsetTime (fst (addOnset C t s)) = t
  /\ onsetCount (fst (addOnset C t s)) = (onsetCount s + 1)%Z
  /\ (state s = IDLE \/ (state s = TRACKING /\ period s == 0) ->
      snd (addOnset C t s) = [])
  /\ (state s <> IDLE -> (state s = TRACKING -> ~ period s == 0) ->
      exists traces,
        (length traces <= 1)%nat
        /\ snd (addOnset C t s)
           = map EvTrace traces
             ++ [EvUpdate (updateOf C (fst (addOnset C t s)))]).
Proof.
  apply addOnset_elim.
  - intros Hst r. cbn [fst snd].
    split; [reflexivity |]. split; [reflexivity |].
    split; [intros [H | [H _]]; congruence |].
    intros _ _. exists [r]. split; [cbn; lia | reflexivity].
  - intros Hst _ r. cbn [fst snd].
    split; [reflexivity |]. split; [reflexivity |].
    split; [intros [H | [H _]]; congruence |].
    intros _ _. exists [r]. split; [cbn; lia | reflexivity].
  - intros Hst _ basePeriod r _ _. cbn [fst snd].
    split; [reflexivity |]. split; [reflexivity |].
    split; [intros [H | [H _]]; congruence |].
    intros _ _. exists [r]. split; [cbn; lia | reflexivity].
  - intros Hst _ _. cbn [fst snd].
    split; [reflexivity |]. split; [reflexivity |].
    split; [intros [H | [H _]]; congruence |].
    intros _ _. exists []. split; [cbn; lia | reflexivity].
  - intros Hskip. cbn [fst snd].
    split; [reflexivity |]. split; [reflexivity |].
    split; [reflexivity |].
    intros Hni Hnz. exfalso.
    destruct Hskip as [H | [H Hz]]; [exact (Hni H) | exact (Hnz H Hz)].
  - intros Hst Hnz.
    destruct (gridHit_bookkeeping C t (noteOnset t s)) as [Hl [Hc _]].
    apply trackOnset_elim; intros _ r; cbn [fst snd].
    + cbn [halveGrid lastOnsetTime onsetCount]. rewrite Hl, Hc.
      split; [reflexivity |]. split; [reflexivity |].
      split; [intros [H | [_ Hz]]; [congruence | contradiction] |].
      intros _ _. exists [r]. split; [cbn; lia | reflexivity].
    + rewrite Hl, Hc.
      split; [reflexivity |]. split; [reflexivity |].
      split; [intros [H | [_ Hz]]; [congruence | contradiction] |].
      intros _ _. exists [r]. split; [cbn; lia | reflexivity].
Qed.

Lemma addOnset_records_and_reports_witness :
  state calibrated <> IDLE
  /\ (state calibrated = TRACKING -> ~ period calibrated == 0)
  /\ exists traces,
       (length traces <= 1)%nat
       /\ snd (addOnset CONSTANTS 4520 calibrated)
          = map EvTrace traces
            ++ [EvUpdate (updateOf CONSTANTS
                            (fst (addOnset CONSTANTS 4520 calibrated)))].
Proof.
  assert (H1 : state calibrated <> IDLE) by (vm_compute; discriminate).
  assert (H2 : state calibrated = TRACKING -> ~ period calibrated == 0).
  { intros _. vm_compute. intro H. discriminate H. }
  split; [exact H1 |]. split; [exact H2 |].
  destruct (addOnset_records_and_reports CONSTANTS 4520 calibrated)
    as [_ [_ [_ H]]].
  exact (H H1 H2).
Defined.

(* ====================================================================== *)
(** ** Further properties: calibration                                     *)
(* ====================================================================== *)

(** Onsets that do not fill the calibration buffer are collected and
    nothing else changes. *)
Lemma run_collects (C : Constants) (ts : list Q) (s : Tracker) :
  state s = CALIBRATING ->
  (length (calOnsets s) + length ts <= CAL_BEATS C)%nat ->
  state (fst (run C (map OpAddOnset ts) s)) = CALIBRATING
  /\ calOnsets (fst (run C (map OpAddOnset ts) s)) = calOnsets s ++ ts
  /\ period (fst (run C (map OpAddOnset ts) s)) = period s
  /\ targetPeriod (fst (run C (map OpAddOnset ts) s)) = targetPeriod s
  /\ confidence (fst (run C (map OpAddOnset ts) s)) = confidence s
  /\ recentPeriods (fst (run C (map OpAddOnset ts) s)) = recentPeriods s
  /\ gridHits (fst (run C (map OpAddOnset ts) s)) = gridHits s
  /\ gridMisses (fst (run C (map OpAddOnset ts) s)) = gridMisses s
  /\ onsetCount (fst (run C (map OpAddOnset ts) s))
     = (onsetCount s + Z.of_nat (length ts))%Z.
Proof.
  revert s. induction ts as [| t ts IH]; intros s Hst Hlen.
  - cbn. rewrite app_nil_r. repeat split; try reflexivity; [exact Hst | lia].
  - cbn [map]. rewrite run_cons_fst. cbn [step].
    cbn [length] in Hlen.
    assert (Hs1 : fst (addOnset C t s) = pushCalOnset t (noteOnset t s)).
    { apply addOnset_elim; try congruence.
      - intros _ _ r. reflexivity.
      - intros _ Hfull. rewrite length_app in Hfull. cbn in Hfull. lia.
      - intros _ Hfull. rewrite length_app in Hfull. cbn in Hfull. lia.
      - intros [H | [H _]]; congruence. }
    rewrite Hs1.
    destruct (IH (pushCalOnset t (noteOnset t s))) as
      [H1 [H2 [H3 [H4 [H5 [H6 [H7 [H8 H9]]]]]]]].
    + exact Hst.
    + cbn [pushCalOnset calOnsets noteOnset]. rewrite length_app. cbn. lia.
    + rewrite H1, H2, H3, H4, H5, H6, H7, H8, H9.
      cbn [pushCalOnset noteOnset calOnsets period targetPeriod confidence
           recentPeriods gridHits gridMisses onsetCount].
      rewrite <- app_assoc. cbn [app length].
      repeat split; first [reflexivity | exact Hst | lia].
Qed.

(** X14.  Calibration needs [CAL_BEATS + 1] onsets: after [reset],
    whatever the tracker went through before, [CAL_BEATS] onsets or
    fewer leave it CALIBRATING with exactly those onsets in [calOnsets],
    in order, the periods and the confidence still 0 and [onsetCount]
    their number; the estimator is not consulted. *)
Theorem calibration_collects_onsets (C : Constants) (ts : list Q)
    (s : Tracker) :
  (length ts <= CAL_BEATS C)%nat ->
  state (fst (run C (OpReset :: map OpAddOnset ts) s)) = CALIBRATING
  /\ calOnsets (fst (run C (OpReset :: map OpAddOnset ts) s)) = ts
  /\ period (fst (run C (OpReset :: map OpAddOnset ts) s)) = 0
  /\ targetPeriod (fst (run C (OpReset :: map OpAddOnset ts) s)) = 0
  /\ confidence (fst (run C (OpReset :: map OpAddOnset ts) s)) = 0
  /\ onsetCount (fst (run C (OpReset :: map OpAddOnset ts) s))
     = Z.of_nat (length ts).
Proof.
  intro Hlen. rewrite run_cons_fst. cbn [step].
  destruct (run_collects C ts (fst (reset C s)))
    as [H1 [H2 [H3 [H4 [H5 [_ [_ [_ H9]]]]]]]].
  - reflexivity.
  - cbn. exact Hlen.
  - rewrite H1, H2, H3, H4, H5, H9. cbn. repeat split; reflexivity.
Qed.

Lemma calibration_collects_onsets_witness :
  (length [0; 500; 1000] <= CAL_BEATS CONSTANTS)%nat
  /\ calOnsets (fst (run CONSTANTS
                       (OpReset :: map OpAddOnset [0; 500; 1000]) calibrated))
     = [0; 500; 1000].
Proof.
  assert (Hlen : (length [0; 500; 1000] <= CAL_BEATS CONSTANTS)%nat)
    by (cbn; lia).
  split; [exact Hlen |].
  exact (proj1 (proj2 (calibration_collects_onsets CONSTANTS
                         [0; 500; 1000] calibrated Hlen))).
Defined.

(* ====================================================================== *)
(** ** Further properties: a perfect tempo                                 *)
(* ====================================================================== *)

(** The [i]-th onset of a perfect tempo. *)
Lemma generatePerfectTempo_split (bpm : Q) (n k : nat) (start : Q) :
  generatePerfectTempo bpm (n + k) start
  = generatePerfectTempo bpm n start
    ++ map (fun i => start + inject_Z (Z.of_nat i) * (60000 / bpm))
         (seq n k).
Proof.
  unfold generatePerfectTempo. cbv zeta.
  rewrite seq_app, map_app. reflexivity.
Qed.

Lemma beat_spacing (start P : Q) (m : nat) :
  (start + inject_Z (Z.of_nat (S m)) * P)
  - (start + inject_Z (Z.of_nat m) * P) == P.
Proof.
  rewrite Nat2Z.inj_succ. unfold Z.succ. rewrite inject_Z_plus.
  change (inject_Z 1) with 1. ring.
Qed.

(** The intervals between the onsets of a perfect tempo are all the
    period, and there is one less than there are onsets. *)
Lemma intervalsOf_perfect (start P : Q) (n m : nat) :
  Forall (fun d => d == P)
    (intervalsOf
       (map (fun i => start + inject_Z (Z.of_nat i) * P) (seq m n)))
  /\ length
       (intervalsOf
          (map (fun i => start + inject_Z (Z.of_nat i) * P) (seq m n)))
     = (n - 1)%nat.
Proof.
  set (f := fun i => start + inject_Z (Z.of_nat i) * P).
  revert m. induction n as [| n IH]; intro m.
  - cbn. split; [constructor | reflexivity].
  - destruct n as [| n'].
    + cbn. split; [constructor | reflexivity].
    + destruct (IH (S m)) as [Hall Hlen].
      assert (E : intervalsOf (map f (seq m (S (S n'))))
                  = (f (S m) - f m)
                    :: intervalsOf (map f (seq (S m) (S n'))))
        by reflexivity.
      rewrite E. split.
      * constructor; [apply beat_spacing | exact Hall].
      * cbn [length]. rewrite Hlen. lia.
Qed.

(** The estimator on intervals that all equal a valid period. *)
Lemma findDominantPeriod_constant (C : Constants) (P : Q)
    (intervals : list Q) :
  intervals <> [] ->
  Forall (fun d => d == P) intervals ->
  MIN_PERIOD_MS C < P -> P < 2000 ->
  findDominantPeriod C intervals == P.
Proof.
  intros Hne Hall Hlo Hhi.
  destruct (findDominantPeriod_zero_or_valid C intervals)
    as [[Hf _] | [_ [Hin _]]].
  - exfalso. destruct intervals as [| d ds]; [congruence |].
    assert (Hd : d == P) by (inversion Hall; assumption).
    assert (Hin : In d (filter (Reference.in_range (MIN_PERIOD_MS C))
                          (d :: ds))).
    { apply filter_In. split; [left; reflexivity |].
      apply in_range_iff. rewrite Hd. auto. }
    rewrite Hf in Hin. exact Hin.
  - rewrite Forall_forall in Hall. exact (Hall _ Hin).
Qed.

(** The state a calibration on a perfect tempo leaves. *)
Lemma perfect_calibration (C : Constants) (bpm start : Q) (s0 : Tracker) :
  0 < bpm ->
  MIN_PERIOD_MS C < 60000 / bpm -> 60000 / bpm < 2000 ->
  (1 <= CAL_BEATS C)%nat ->
  exists basePeriod,
    basePeriod == 60000 / bpm
    /\ fst (run C
              (OpReset
               :: map OpAddOnset
                    (generatePerfectTempo bpm (CAL_BEATS C + 1) start))
              s0)
       = {| period := basePeriod;
            phase := start + inject_Z (Z.of_nat (CAL_BEATS C)) * (60000 / bpm);
            targetPeriod := basePeriod; confidence := 0.5;
            calOnsets := generatePerfectTempo bpm (CAL_BEATS C + 1) start;
            state := TRACKING;
            onsetCount := Z.of_nat (CAL_BEATS C) + 1;
            gridHits := 0; gridMisses := 0;
            recentPeriods := [basePeriod];
            lastOnsetTime :=
              start + inject_Z (Z.of_nat (CAL_BEATS C)) * (60000 / bpm);
            silenceCheckInterval := silenceCheckInterval s0 |}.
Proof.
  intros Hbpm Hlo Hhi Hcal.
  set (P := 60000 / bpm) in *.
  set (c := CAL_BEATS C) in *.
  set (tc := start + inject_Z (Z.of_nat c) * P).
  assert (Hgen : generatePerfectTempo bpm (c + 1) start
                 = generatePerfectTempo bpm c start ++ [tc]).
  { rewrite generatePerfectTempo_split. reflexivity. }
  assert (Hclen : length (generatePerfectTempo bpm c start) = c).
  { unfold generatePerfectTempo. cbv zeta. rewrite length_map, length_seq.
    reflexivity. }
  rewrite Hgen, map_app. cbn [map].
  change (OpReset :: map OpAddOnset (generatePerfectTempo bpm c start)
          ++ [OpAddOnset tc])
    with ((OpReset :: map OpAddOnset (generatePerfectTempo bpm c start))
          ++ [OpAddOnset tc]).
  rewrite run_app_fst, (run_cons_fst C OpReset). cbn [step].
  destruct (run_collects C (generatePerfectTempo bpm c start)
              (fst (reset C s0)))
    as [H1 [H2 [H3 [H4 [H5 [H6 [H7 [H8 H9]]]]]]]].
  { reflexivity. }
  { cbn [reset fst calOnsets length]. rewrite Hclen. unfold c. lia. }
  set (sc := fst (run C (map OpAddOnset (generatePerfectTempo bpm c start))
                    (fst (reset C s0)))) in *.
  cbn [reset fst calOnsets period targetPeriod confidence recentPeriods
       gridHits gridMisses onsetCount app] in H2, H3, H4, H5, H6, H7, H8, H9.
  assert (Hsi : silenceCheckInterval sc = silenceCheckInterval s0).
  { unfold sc.
    assert (G : forall ts s,
              silenceCheckInterval (fst (run C (map OpAddOnset ts) s))
              = silenceCheckInterval s).
    { induction ts as [| t ts IHts]; intro s; [reflexivity |].
      cbn [map]. rewrite run_cons_fst, IHts. cbn [step].
      apply addOnset_elim; intros; try reflexivity.
      apply trackOnset_elim; intros _ r; cbn [fst].
      - cbn [halveGrid silenceCheckInterval].
        apply (gridHit_bookkeeping C t (noteOnset t s)).
      - apply (gridHit_bookkeeping C t (noteOnset t s)). }
    rewrite G. reflexivity. }
  cbn [run]. 
  assert (Hint : findDominantPeriod C (intervalsOf (calOnsets sc ++ [tc]))
                 == P).
  { rewrite H2, <- Hgen. unfold generatePerfectTempo. cbv zeta. fold P.
    destruct (intervalsOf_perfect start P (c + 1) 0) as [Hall Hlen].
    apply findDominantPeriod_constant; try assumption.
    intro Hnil. rewrite Hnil in Hlen. cbn in Hlen. unfold c in *. lia. }
  assert (Hpos : 0 < P) by (apply positive_tempo_period; exact Hbpm).
  destruct (step C (OpAddOnset tc) sc) as [s' e'] eqn:Estep.
  cbn [fst].
  assert (Hs' : s' = fst (addOnset C tc sc)) by (cbn [step] in Estep;
    rewrite Estep; reflexivity).
  clear Estep. subst s'.
  apply addOnset_elim; try congruence.
  - intros _ Hshort. exfalso.
    rewrite H2, length_app, Hclen in Hshort. cbn in Hshort. unfold c in *. lia.
  - intros _ _ basePeriod r _ Hbase. cbn [fst].
    exists basePeriod. split; [rewrite Hbase; exact Hint |].
    unfold completeCalibration, pushCalOnset, noteOnset.
    cbn [period phase targetPeriod confidence calOnsets state onsetCount
         gridHits gridMisses recentPeriods lastOnsetTime silenceCheckInterval].
    rewrite H2, H7, H8, H9, Hsi, Hclen, <- Hgen. reflexivity.
  - intros _ _ Hle. exfalso. rewrite Hint in Hle. lra.
  - intros [H | [H _]]; congruence.
Qed.





(** X15.  A calibration on a perfect tempo finds it.  After [reset],
    [CAL_BEATS + 1] onsets spaced [60000 / bpm] apart, for a positive
    [bpm] whose period lies strictly between [MIN_PERIOD_MS] and 2000
    and at least one calibration beat, leave the tracker TRACKING with
    [period] and [targetPeriod] both equal to [60000 / bpm], the phase
    on the last onset, confidence 0.5, both counters 0 and the period as
    only entry of [recentPeriods]. *)
Theorem perfect_tempo_calibrates (C : Constants) (bpm start : Q)
    (s0 : Tracker) :
  0 < bpm ->
  MIN_PERIOD_MS C < 60000 / bpm -> 60000 / bpm < 2000 ->
  (1 <= CAL_BEATS C)%nat ->
  let s :=
    fst (run C
           (OpReset
            :: map OpAddOnset
                 (generatePerfectTempo bpm (CAL_BEATS C + 1) start))
           s0) in
  state s = TRACKING
  /\ period s == 60000 / bpm
  /\ targetPeriod s = period s
  /\ phase s = start + inject_Z (Z.of_nat (CAL_BEATS C)) * (60000 / bpm)
  /\ confidence s = 0.5
  /\ gridHits s = 0%Z /\ gridMisses s = 0%Z
  /\ recentPeriods s = [period s]
  /\ calOnsets s = generatePerfectTempo bpm (CAL_BEATS C + 1) start.
Proof.
  intros Hbpm Hlo Hhi Hcal.
  destruct (perfect_calibration C bpm start s0 Hbpm Hlo Hhi Hcal)
    as [basePeriod [Hbase Hs]].
  cbv zeta. rewrite Hs. cbn. repeat split; auto.
Qed.

Lemma perfect_tempo_calibrates_witness :
  0 < 120
  /\ MIN_PERIOD_MS CONSTANTS < 60000 / 120 /\ 60000 / 120 < 2000
  /\ (1 <= CAL_BEATS CONSTANTS)%nat
  /\ period
       (fst (run CONSTANTS
               (OpReset
                :: map OpAddOnset
                     (generatePerfectTempo 120 (CAL_BEATS CONSTANTS + 1) 0))
               createBeatTracker))
     == 60000 / 120.
Proof.
  assert (H1 : 0 < 120) by reflexivity.
  assert (H2 : MIN_PERIOD_MS CONSTANTS < 60000 / 120) by reflexivity.
  assert (H3 : 60000 / 120 < 2000) by reflexivity.
  assert (H4 : (1 <= CAL_BEATS CONSTANTS)%nat) by (cbn; lia).
  split; [exact H1 |]. split; [exact H2 |]. split; [exact H3 |].
  split; [exact H4 |].
  exact (proj1 (proj2 (perfect_tempo_calibrates CONSTANTS 120 0
                         createBeatTracker H1 H2 H3 H4))).
Defined.



(* ====================================================================== *)
(** ** Further properties: the trace buffer                                *)
(* ====================================================================== *)

Lemma lastN_length {A : Type} (n : nat) (xs : list A) :
  length (lastN n xs) = Nat.min n (length xs).
Proof. unfold lastN. rewrite length_skipn. lia. Qed.

Lemma lastN_all {A : Type} (n : nat) (xs : list A) :
  (length xs <= n)%nat -> lastN n xs = xs.
Proof.
  intro H. unfold lastN. replace (length xs - n)%nat with 0%nat by lia.
  reflexivity.
Qed.

Lemma lastN_map {A B : Type} (f : A -> B) (n : nat) (xs : list A) :
  map f (lastN n xs) = lastN n (map f xs).
Proof. unfold lastN. rewrite length_map. symmetry. apply skipn_map. Qed.

(** Keeping the last [n] can be done before or after a push. *)
Lemma lastN_push {A : Type} (n : nat) (xs : list A) (x : A) :
  lastN n (lastN n xs ++ [x]) = lastN n (xs ++ [x]).
Proof.
  destruct (Nat.le_gt_cases (length xs) n) as [Hle | Hgt].
  - rewrite (lastN_all n xs Hle). reflexivity.
  - unfold lastN. rewrite !length_app, length_skipn. cbn [length].
    rewrite !skipn_app, skipn_skipn, length_skipn.
    f_equal; f_equal; lia.
Qed.

(** On a buffer within its capacity, [add] pushes and keeps the last
    [maxSize] entries. *)
Lemma add_lastN {A : Type} (maxSize : Z) (x : A)
    (entries : list (TraceBuffer.Entry A)) :
  (length entries <= Z.to_nat maxSize)%nat ->
  TraceBuffer.add maxSize x entries
  = lastN (Z.to_nat maxSize)
      (entries ++ [TraceBuffer.mkEntry A x (length entries)]).
Proof.
  intro Hlen. unfold TraceBuffer.add. cbv zeta.
  set (pushed := entries ++ [TraceBuffer.mkEntry A x (length entries)]).
  assert (Hp : length pushed = S (length entries)).
  { unfold pushed. rewrite length_app. cbn. lia. }
  destruct (maxSize <? Z.of_nat (length pushed))%Z eqn:E.
  - apply Z.ltb_lt in E. unfold lastN, Js.shift.
    replace (length pushed - Z.to_nat maxSize)%nat with 1%nat by lia.
    destruct pushed; reflexivity.
  - apply Z.ltb_ge in E. symmetry. apply lastN_all. lia.
Qed.

Lemma addAll_snoc {A : Type} (maxSize : Z) (xs : list A) (x : A)
    (entries : list (TraceBuffer.Entry A)) :
  TraceBuffer.addAll maxSize (xs ++ [x]) entries
  = TraceBuffer.add maxSize x (TraceBuffer.addAll maxSize xs entries).
Proof.
  unfold TraceBuffer.addAll. rewrite fold_left_app. reflexivity.
Qed.

Lemma stampedFrom_snoc {A : Type} (cap rank : nat) (xs : list A) (x : A) :
  stampedFrom cap rank (xs ++ [x])
  = stampedFrom cap rank xs
    ++ [TraceBuffer.mkEntry A x (Nat.min (rank + length xs) cap)].
Proof.
  revert rank. induction xs as [| y xs IH]; intro rank; cbn.
  - rewrite Nat.add_0_r. reflexivity.
  - rewrite IH. replace (S rank + length xs)%nat
      with (rank + S (length xs))%nat by lia.
    reflexivity.
Qed.

Lemma stamped_snoc {A : Type} (cap : nat) (xs : list A) (x : A) :
  stamped cap (xs ++ [x])
  = stamped cap xs
    ++ [TraceBuffer.mkEntry A x (Nat.min (length xs) cap)].
Proof. unfold stamped. exact (stampedFrom_snoc cap 0 xs x). Qed.

Lemma stamped_length {A : Type} (cap : nat) (xs : list A) :
  length (stamped cap xs) = length xs.
Proof.
  unfold stamped. generalize 0%nat.
  induction xs as [| x xs IH]; intro rank; cbn; [reflexivity |].
  rewrite IH. reflexivity.
Qed.

(** The buffer after a run of [add] from the empty buffer. *)
Lemma addAll_stamped {A : Type} (maxSize : Z) (xs : list A) :
  TraceBuffer.addAll maxSize xs TraceBuffer.createTraceBuffer
  = lastN (Z.to_nat maxSize) (stamped (Z.to_nat maxSize) xs).
Proof.
  induction xs as [| x xs IH] using rev_ind.
  - reflexivity.
  - rewrite addAll_snoc, IH, stamped_snoc.
    rewrite add_lastN by (rewrite lastN_length; lia).
    rewrite lastN_length, stamped_length.
    rewrite (Nat.min_comm (Z.to_nat maxSize) (length xs)).
    apply lastN_push.
Qed.

Lemma stamped_payload {A : Type} (cap : nat) (xs : list A) :
  map TraceBuffer.payload (stamped cap xs) = xs.
Proof.
  induction xs as [| x xs IH] using rev_ind; [reflexivity |].
  rewrite stamped_snoc, map_app, IH. reflexivity.
Qed.

Lemma stamped_index {A : Type} (cap : nat) (xs : list A) :
  map TraceBuffer.index (stamped cap xs)
  = map (fun i => Nat.min i cap) (seq 0 (length xs)).
Proof.
  induction xs as [| x xs IH] using rev_ind; [reflexivity |].
  rewrite stamped_snoc, map_app, IH, length_app. cbn [length].
  rewrite seq_app, map_app. reflexivity.
Qed.

(** X17.  The trace buffer is a bounded queue: after [add] has been
    called on each element of [xs], from an empty buffer, the buffer
    holds the last [maxSize] of them, in the order they were added, and
    all of them when there are no more than [maxSize]; it never holds
    more than [maxSize] entries, and none when [maxSize] is zero or
    negative. *)
Theorem trace_buffer_keeps_last (A : Type) (maxSize : Z) (xs : list A) :
  map TraceBuffer.payload
    (TraceBuffer.getAll
       (TraceBuffer.addAll maxSize xs TraceBuffer.createTraceBuffer))
  = lastN (Z.to_nat maxSize) xs
  /\ length (TraceBuffer.addAll maxSize xs TraceBuffer.createTraceBuffer)
     = Nat.min (Z.to_nat maxSize) (length xs).
Proof.
  rewrite addAll_stamped. unfold TraceBuffer.getAll. split.
  - rewrite lastN_map, stamped_payload. reflexivity.
  - rewrite lastN_length, stamped_length. reflexivity.
Qed.

(** X18.  The [_index] of an entry is the length of the buffer when it
    was added, not a running number: the entries kept after [add] has
    been called on each element of [xs] carry their rank in [xs] as
    long as the rank is below [maxSize], and [maxSize] itself for every
    entry added to a full buffer.  Once twice [maxSize] entries were
    added, every entry of the buffer has the same [_index]. *)
Theorem trace_index_is_capped (A : Type) (maxSize : Z) (xs : list A) :
  map TraceBuffer.index
    (TraceBuffer.addAll maxSize xs TraceBuffer.createTraceBuffer)
  = lastN (Z.to_nat maxSize)
      (map (fun i => Nat.min i (Z.to_nat maxSize)) (seq 0 (length xs)))
  /\ ((2 * Z.to_nat maxSize <= length xs)%nat ->
      Forall (fun e => TraceBuffer.index e = Z.to_nat maxSize)
        (TraceBuffer.addAll maxSize xs TraceBuffer.createTraceBuffer)).
Proof.
  assert (Hidx : map TraceBuffer.index
                   (TraceBuffer.addAll maxSize xs
                      TraceBuffer.createTraceBuffer)
                 = lastN (Z.to_nat maxSize)
                     (map (fun i => Nat.min i (Z.to_nat maxSize))
                        (seq 0 (length xs)))).
  { rewrite addAll_stamped, lastN_map, stamped_index. reflexivity. }
  split; [exact Hidx |].
  intro Hlong.
  set (cap := Z.to_nat maxSize) in *.
  apply Forall_forall. intros e He.
  assert (Hin : In (TraceBuffer.index e)
                  (lastN cap (map (fun i => Nat.min i cap)
                                (seq 0 (length xs))))).
  { rewrite <- Hidx. apply in_map. exact He. }
  unfold lastN in Hin. rewrite length_map, length_seq in Hin.
  rewrite skipn_map, skipn_seq in Hin.
  apply in_map_iff in Hin. destruct Hin as [i [Hi Hseq]].
  apply in_seq in Hseq. lia.
Qed.

Lemma trace_index_is_capped_witness :
  (2 * Z.to_nat 2 <= length [10; 20; 30; 40; 50]%nat)%nat
  /\ Forall (fun e => TraceBuffer.index e = Z.to_nat 2)
       (TraceBuffer.addAll 2 [10; 20; 30; 40; 50]%nat
          TraceBuffer.createTraceBuffer).
Proof.
  assert (H : (2 * Z.to_nat 2 <= length [10; 20; 30; 40; 50]%nat)%nat)
    by (cbn; lia).
  split; [exact H |].
  exact (proj2 (trace_index_is_capped nat 2 [10; 20; 30; 40; 50]%nat) H).
Defined.

(** X19.  [getLast(n)] returns the last [n] entries of the buffer for a
    positive [n], all of them when there are fewer; [getLast(0)] returns
    the whole buffer, as [getAll] does, not the empty list. *)
Theorem getLast_returns_suffix (A : Type) (n : Z)
    (entries : list (TraceBuffer.Entry A)) :
  ((0 < n)%Z ->
   TraceBuffer.getLast n entries = lastN (Z.to_nat n) entries
   /\ length (TraceBuffer.getLast n entries)
      = Nat.min (Z.to_nat n) (length entries))
  /\ TraceBuffer.getLast 0 entries = TraceBuffer.getAll entries.
Proof.
  unfold TraceBuffer.getLast, TraceBuffer.slice, TraceBuffer.getAll.
  cbv zeta. split.
  - intro Hn.
    assert (E : (- n <? 0)%Z = true) by (apply Z.ltb_lt; lia).
    rewrite E.
    assert (Hk : Z.to_nat (Z.max (Z.of_nat (length entries) + - n) 0)
                 = (length entries - Z.to_nat n)%nat) by lia.
    rewrite Hk. fold (lastN (Z.to_nat n) entries).
    split; [reflexivity | apply lastN_length].
  - change (- 0 <? 0)%Z with false. cbv iota.
    replace (Z.to_nat (Z.min (- 0) (Z.of_nat (length entries))))
      with 0%nat by lia.
    reflexivity.
Qed.

Lemma getLast_returns_suffix_witness :
  (0 < 2)%Z
  /\ map TraceBuffer.payload
       (TraceBuffer.getLast 2
          (TraceBuffer.addAll 10 [10; 20; 30]%nat
             TraceBuffer.createTraceBuffer))
     = [20; 30]%nat.
Proof.
  assert (H : (0 < 2)%Z) by lia.
  split; [exact H |].
  rewrite (proj1 (proj1 (getLast_returns_suffix nat 2
                           (TraceBuffer.addAll 10 [10; 20; 30]%nat
                              TraceBuffer.createTraceBuffer)) H)).
  reflexivity.
Defined.

(* ====================================================================== *)
(** ** Further properties: the onset generators                            *)
(* ====================================================================== *)

Lemma generatePerfectTempo_length (bpm : Q) (beats : nat) (start : Q) :
  length (generatePerfectTempo bpm beats start) = beats.
Proof.
  unfold generatePerfectTempo. cbv zeta.
  rewrite length_map, length_seq. reflexivity.
Qed.

Lemma beat_order (start P : Q) (m i : nat) :
  0 < P -> (m < i)%nat ->
  start + inject_Z (Z.of_nat m) * P < start + inject_Z (Z.of_nat i) * P.
Proof.
  intros HP Hmi.
  assert (H : inject_Z (Z.of_nat m) < inject_Z (Z.of_nat i)).
  { rewrite <- Zlt_Qlt. lia. }
  assert (H' : inject_Z (Z.of_nat m) * P < inject_Z (Z.of_nat i) * P).
  { apply Qmult_lt_compat_r; assumption. }
  lra.
Qed.

Lemma beats_increase (start P : Q) (n m : nat) :
  0 < P ->
  StronglySorted Qlt
    (map (fun i => start + inject_Z (Z.of_nat i) * P) (seq m n)).
Proof.
  intro HP. revert m. induction n as [| n IH]; intro m; cbn [seq map].
  - constructor.
  - constructor; [apply IH |].
    apply Forall_forall. intros x Hx.
    apply in_map_iff in Hx. destruct Hx as [i [<- Hi]].
    apply in_seq in Hi. apply beat_order; [exact HP | lia].
Qed.

(** X20.  [generatePerfectTempo] produces [beats] onsets.  In exact
    rational arithmetic their consecutive intervals, as [addOnset]
    computes them for the estimator, all equal [60000 / bpm] when [bpm]
    is not 0, and for a positive [bpm] the onsets strictly increase.  (On doubles each
    onset is rounded: the intervals then equal [60000 / bpm] up to the
    rounding only, as at 130 BPM, where [60000 / 130] is no double.) *)
Theorem generatePerfectTempo_is_isochronous (bpm : Q) (beats : nat)
    (start : Q) :
  length (generatePerfectTempo bpm beats start) = beats
  /\ (~ bpm == 0 ->
      Forall (fun d => d == 60000 / bpm)
        (intervalsOf (generatePerfectTempo bpm beats start)))
  /\ length (intervalsOf (generatePerfectTempo bpm beats start))
     = (beats - 1)%nat
  /\ (0 < bpm ->
      StronglySorted Qlt (generatePerfectTempo bpm beats start)).
Proof.
  split; [apply generatePerfectTempo_length |].
  destruct (intervalsOf_perfect start (60000 / bpm) beats 0) as [Hall Hlen].
  split; [intros _; exact Hall |]. split; [exact Hlen |].
  intro Hbpm. apply beats_increase. apply positive_tempo_period, Hbpm.
Qed.

Lemma generatePerfectTempo_is_isochronous_witness :
  ~ 120 == 0 /\ 0 < 120
  /\ Forall (fun d => d == 60000 / 120)
       (intervalsOf (generatePerfectTempo 120 4 0))
  /\ StronglySorted Qlt (generatePerfectTempo 120 4 0).
Proof.
  assert (Hnz : ~ 120 == 0) by (intro E; discriminate E).
  assert (H : 0 < 120) by reflexivity.
  destruct (generatePerfectTempo_is_isochronous 120 4 0)
    as [_ [Hiv [_ Hinc]]].
  split; [exact Hnz |]. split; [exact H |].
  split; [exact (Hiv Hnz) | exact (Hinc H)].
Defined.









Lemma filterIndexed_seq {A : Type} (keep : nat -> bool) (f : nat -> A)
    (from n : nat) :
  filterIndexed keep from (map f (seq from n))
  = map f (filter keep (seq from n)).
Proof.
  revert from. induction n as [| n IH]; intro from; cbn [seq map].
  - reflexivity.
  - cbn [filterIndexed filter]. rewrite IH.
    destruct (keep from); reflexivity.
Qed.

Lemma filter_length_le {A : Type} (p : A -> bool) (xs : list A) :
  (length (filter p xs) <= length xs)%nat.
Proof.
  induction xs as [| x xs IH]; cbn; [lia |].
  destruct (p x); cbn; lia.
Qed.

(** X23.  [generateWithMissedBeats] produces the onsets of the perfect
    tempo at the indices below [beats] that are not miss indices, in
    order: never more than [beats] onsets, all of them when there is no
    miss index, and none of an index that is listed. *)
Theorem generateWithMissedBeats_drops_indices (bpm : Q) (beats : nat)
    (missIndices : list nat) (startTime : Q) :
  generateWithMissedBeats bpm beats missIndices startTime
  = map (fun i => startTime + inject_Z (Z.of_nat i) * (60000 / bpm))
      (filter (fun i => negb (missed missIndices i)) (seq 0 beats))
  /\ (forall i,
        In i (filter (fun i => negb (missed missIndices i)) (seq 0 beats))
        <-> (i < beats)%nat /\ ~ In i missIndices)
  /\ (length (generateWithMissedBeats bpm beats missIndices startTime)
      <= beats)%nat
  /\ generateWithMissedBeats bpm beats [] startTime
     = generatePerfectTempo bpm beats startTime.
Proof.
  assert (E : forall miss,
            generateWithMissedBeats bpm beats miss startTime
            = map (fun i => startTime
                            + inject_Z (Z.of_nat i) * (60000 / bpm))
                (filter (fun i => negb (missed miss i)) (seq 0 beats))).
  { intro miss. unfold generateWithMissedBeats, generatePerfectTempo.
    cbv zeta. apply filterIndexed_seq. }
  split; [apply E |]. split; [| split].
  - intro i. rewrite filter_In, in_seq, negb_true_iff.
    unfold missed. split.
    + intros [Hi Hm]. split; [lia |]. intro Hin.
      assert (Hex : existsb (Nat.eqb i) missIndices = true).
      { apply existsb_exists. exists i. split; [exact Hin |].
        apply Nat.eqb_refl. }
      congruence.
    + intros [Hi Hm]. split; [lia |].
      destruct (existsb (Nat.eqb i) missIndices) eqn:Ex; [| reflexivity].
      exfalso. apply existsb_exists in Ex. destruct Ex as [j [Hj Hij]].
      apply Nat.eqb_eq in Hij. subst j. exact (Hm Hj).
  - rewrite E, length_map.
    pose proof (filter_length_le (fun i => negb (missed missIndices i))
                  (seq 0 beats)) as H.
    rewrite length_seq in H. exact H.
  - rewrite E. unfold generatePerfectTempo. cbv zeta. f_equal.
    apply forallb_filter_id. apply forallb_forall. intros; reflexivity.
Qed.





(* ====================================================================== *)
(** ** Further properties: the scenario runner                             *)
(* ====================================================================== *)

Lemma updatesOf_app (evs1 evs2 : list Event) :
  updatesOf (evs1 ++ evs2) = updatesOf evs1 ++ updatesOf evs2.
Proof. unfold updatesOf. apply flat_map_app. Qed.

Lemma tracesOf_app (evs1 evs2 : list Event) :
  tracesOf (evs1 ++ evs2) = tracesOf evs1 ++ tracesOf evs2.
Proof. unfold tracesOf. apply flat_map_app. Qed.

(** An onset that is processed yields one [Update], the snapshot of the
    state it leaves, and at most one trace record. *)
Lemma addOnset_one_update (C : Constants) (t : Q) (s : Tracker) :
  state s <> IDLE -> tracking_has_period s ->
  updatesOf (snd (addOnset C t s)) = [updateOf C (fst (addOnset C t s))]
  /\ (length (tracesOf (snd (addOnset C t s))) <= 1)%nat.
Proof.
  intros Hni Hinv. apply addOnset_elim.
  - intros _ r. cbn. split; [reflexivity | lia].
  - intros _ _ r. cbn. split; [reflexivity | lia].
  - intros _ _ basePeriod r _ _. cbn. split; [reflexivity | lia].
  - intros _ _ _. cbn. split; [reflexivity | lia].
  - intros [H | [H Hz]]; [contradiction |].
    exfalso. specialize (Hinv H). lra.
  - intros _ _. apply trackOnset_elim; intros _ r; cbn;
      (split; [reflexivity | lia]).
Qed.

(** The [Update]s of a run of onsets on a tracker that is not IDLE: one
    for each onset, the snapshot of the state after it. *)
Lemma run_onsets_updates (C : Constants) (ts : list Q) (s : Tracker) :
  constants_ok C -> state s <> IDLE -> tracking_has_period s ->
  updatesOf (snd (run C (map OpAddOnset ts) s))
  = map (fun j => updateOf C (fst (run C (map OpAddOnset (firstn j ts)) s)))
      (seq 1 (length ts))
  /\ (length (tracesOf (snd (run C (map OpAddOnset ts) s)))
      <= length ts)%nat.
Proof.
  intro HC. revert s. induction ts as [| t ts IH]; intros s Hni Hinv.
  - cbn. split; [reflexivity | lia].
  - cbn [map]. rewrite run_cons_snd, updatesOf_app, tracesOf_app.
    cbn [step].
    destruct (addOnset_one_update C t s Hni Hinv) as [Hu Ht].
    rewrite Hu.
    destruct (IH (fst (addOnset C t s))) as [IHu IHt].
    + apply (step_leaves_idle C (OpAddOnset t) s). right. exact Hni.
    + apply (step_tracking_has_period C (OpAddOnset t) s HC I Hinv).
    + split.
      * rewrite IHu. cbn [length seq map firstn app].
        rewrite run_cons_fst. cbn [step run fst].
        f_equal.
        rewrite <- (seq_shift (length ts) 1), map_map.
        apply map_ext. intro j. cbn [firstn map].
        rewrite run_cons_fst. reflexivity.
      * rewrite length_app. cbn [length]. lia.
Qed.

(** The [Update]s [runScenario] collects. *)
Lemma scenario_updates (C : Constants) (onsets : list Q) :
  constants_ok C ->
  updatesOf (snd (session C (scenarioOps onsets)))
  = map (fun j =>
           updateOf C (fst (session C (scenarioOps (firstn j onsets)))))
      (seq 0 (S (length onsets)))
  /\ (length (tracesOf (snd (session C (scenarioOps onsets))))
      <= length onsets)%nat.
Proof.
  intro HC. unfold session, scenarioOps.
  rewrite run_cons_snd, updatesOf_app, tracesOf_app. cbn [step].
  destruct (run_onsets_updates C onsets (fst (reset C createBeatTracker)) HC)
    as [Hu Ht].
  - cbn. discriminate.
  - unfold tracking_has_period. cbn. discriminate.
  - split.
    + rewrite Hu. cbn [seq map firstn reset snd emitUpdate updatesOf flat_map
                       app].
      f_equal; try reflexivity.
      apply map_ext. intro j. rewrite run_cons_fst. reflexivity.
    + cbn [reset snd emitUpdate tracesOf flat_map app length]. exact Ht.
Qed.

Lemma runScenario_updates (C : Constants) (onsets : list Q)
    (exps : list Expectation) :
  res_updates (runScenario C onsets exps)
  = updatesOf (snd (session C (scenarioOps onsets)))
  /\ map TraceBuffer.payload (res_trace (runScenario C onsets exps))
     = lastN (Z.to_nat 10000)
         (tracesOf (snd (session C (scenarioOps onsets))))
  /\ map TraceBuffer.index (res_trace (runScenario C onsets exps))
     = lastN (Z.to_nat 10000)
         (map (fun i => Nat.min i (Z.to_nat 10000))
            (seq 0 (length (tracesOf
                              (snd (session C (scenarioOps onsets)))))))
  /\ res_checks (runScenario C onsets exps)
     = flat_map
         (fun exp =>
            match expectedUpdate
                    (updatesOf (snd (session C (scenarioOps onsets)))) exp
            with
            | Some update =>
                [mkCheck (after_onset exp) (Some update)
                   (expectationMet exp update)]
            | None => []
            end)
         exps
  /\ res_passed (runScenario C onsets exps)
     = forallb check_passed (res_checks (runScenario C onsets exps)).
Proof.
  unfold runScenario.
  destruct (session C (scenarioOps onsets)) as [tracker evs].
  cbn [snd res_updates res_trace res_checks res_passed].
  unfold TraceBuffer.getAll.
  rewrite addAll_stamped, !lastN_map, stamped_payload, stamped_index.
  repeat split; reflexivity.
Qed.

Lemma expectedUpdate_in_range (updates : list Update) (exp : Expectation) :
  (1 <= after_onset exp <= Z.of_nat (length updates))%Z ->
  expectedUpdate updates exp
  = nth_error updates (Z.to_nat (after_onset exp - 1)).
Proof.
  intro H. unfold expectedUpdate. cbv zeta.
  assert (E1 : (0 <=? after_onset exp - 1)%Z = true)
    by (apply Z.leb_le; lia).
  assert (E2 : (after_onset exp - 1 <? Z.of_nat (length updates))%Z = true)
    by (apply Z.ltb_lt; lia).
  rewrite E1, E2. reflexivity.
Qed.


(** X25.  [runScenario] receives one [Update] more than there are
    onsets: the first is the one [reset] emits, the one at index [j] is
    the snapshot of the tracker after [j] onsets.  An expectation with
    [after_onset = a], for [a] from 1 to the number of onsets plus one,
    is therefore compared with [updates[a - 1]], the [Update] emitted
    after [a - 1] onsets, and for [a = 1] with the [Update] of [reset].
    (Constants with a non-negative [MIN_PERIOD_MS] and an [ADAPT_FAST]
    within [0, 1].) *)
Theorem runScenario_compares_previous_update (C : Constants)
    (onsets : list Q) (exps : list Expectation) (exp : Expectation) :
  constants_ok C ->
  (1 <= after_onset exp <= Z.of_nat (length onsets) + 1)%Z ->
  length (res_updates (runScenario C onsets exps)) = S (length onsets)
  /\ expectedUpdate (res_updates (runScenario C onsets exps)) exp
     = Some (updateOf C
               (fst (session C
                       (scenarioOps
                          (firstn (Z.to_nat (after_onset exp - 1))
                             onsets))))).
Proof.
  intros HC Ha.
  destruct (runScenario_updates C onsets exps) as [Hu _].
  destruct (scenario_updates C onsets HC) as [Hs _].
  rewrite Hu, Hs.
  assert (Hlen : length
                   (map (fun j =>
                           updateOf C
                             (fst (session C
                                     (scenarioOps (firstn j onsets)))))
                      (seq 0 (S (length onsets))))
                 = S (length onsets))
    by (rewrite length_map, length_seq; reflexivity).
  split; [exact Hlen |].
  rewrite expectedUpdate_in_range by (rewrite Hlen; lia).
  set (k := Z.to_nat (after_onset exp - 1)).
  rewrite nth_error_map.
  assert (Hk : nth_error (seq 0 (S (length onsets))) k = Some k).
  { rewrite nth_error_nth' with (d := 0%nat)
      by (rewrite length_seq; unfold k; lia).
    rewrite seq_nth by (unfold k; lia). reflexivity. }
  rewrite Hk. reflexivity.
Qed.

Lemma runScenario_compares_previous_update_witness :
  constants_ok CONSTANTS
  /\ (1 <= 1 <= Z.of_nat (length [0%Q; 500%Q]) + 1)%Z
  /\ expectedUpdate (res_updates (runScenario CONSTANTS [0; 500] []))
       (mkExpectation 1 None None None)
     = Some (updateOf CONSTANTS (fst (session CONSTANTS [OpReset]))).
Proof.
  assert (HC : constants_ok CONSTANTS).
  { unfold constants_ok. cbn. repeat split; discriminate. }
  assert (Ha : (1 <= after_onset (mkExpectation 1 None None None)
                <= Z.of_nat (length [0%Q; 500%Q]) + 1)%Z) by (cbn; lia).
  split; [exact HC |]. split; [exact Ha |].
  exact (proj2 (runScenario_compares_previous_update CONSTANTS [0; 500] []
                  (mkExpectation 1 None None None) HC Ha)).
Defined.










(* ====================================================================== *)
(** ** Further properties: reset and the silence timer                     *)
(* ====================================================================== *)


